(** * bit::utility::lock_free — allocator, chunk list and SPSC pipe

    A shallow embedding of the header-only templates
    [lf_atomic_ptr.hpp], [lf_memory_allocator.hpp],
    [lf_object_allocator.hpp], [lf_chunk_list.hpp] and [lf_pipe.hpp],
    together with the demonstration program, followed by the properties
    proved about them.

    Conventions.
    - A block address is a [positive]; a pointer is an [option] of it
      ([None] is [nullptr]).
    - [uint32_t] and [uint64_t] values are [Z] with the wrap-around
      written out ([wrap]).
    - Raw storage (a slot without a live object, a link field that was
      never assigned) is [Raw]; reading it is undefined behaviour.
    - Undefined behaviour (null or dangling dereference, out-of-range
      index, division by zero, read of raw storage) makes an operation
      return [None] (or [Undefined] at the pipe level).
    - Every member function is one step: calls of the two threads are
      interleaved, never overlapped. *)

From Stdlib Require Import ZArith Lia.
From stdpp Require Import base option list gmap.

Local Open Scope Z_scope.

(** ** Pointers and machine integers *)

Definition addr := positive.
Definition ptr := option addr.

Definition UINT32_MAX : Z := 2 ^ 32 - 1.

Definition wrap (bits : Z) (x : Z) : Z := x mod 2 ^ bits.

(** Raw storage versus storage holding a value. *)
Inductive cell (A : Type) : Type :=
| Raw
| Holds (a : A).
Arguments Raw {A}.
Arguments Holds {A} a.

Definition cell_get {A} (c : cell A) : option A :=
  match c with
  | Raw => None
  | Holds a => Some a
  end.

(** ** lf_atomic_ptr.hpp: the operations of [std::atomic] that are used *)

Module Atomic.

(** [a.compare_exchange_strong(expected, desired)]: the result, the
    new content of [a] and the new content of [expected]. *)
Definition compare_exchange_strong {A} `{EqDecision A}
    (a expected desired : A) : bool * A * A :=
  if decide (a = expected) then (true, desired, expected)
  else (false, a, a).

(** [a.exchange(v)]: the old content and the new content of [a]. *)
Definition exchange {A} (a v : A) : A * A := (a, v).

End Atomic.

(** ** The system allocator

    [::operator new(sizeof(T), std::nothrow)] and
    [::operator delete(ptr, std::nothrow)] are not part of the
    repository; they are an interface.  Deleting a null pointer has no
    effect (the C++ standard guarantees it). *)

Class SystemAllocator (sys : Type) := {
  operator_new : sys -> ptr * sys;
  operator_delete : ptr -> sys -> sys;
  operator_delete_null : forall s, operator_delete None s = s
}.

(** A concrete system allocator for running programs: it hands out
    increasing addresses while its budget lasts and records what was
    released. *)
Record Bump := mkBump {
  bump_next : addr;
  bump_left : nat;
  bump_released : list addr
}.

Definition bump_new (s : Bump) : ptr * Bump :=
  match bump_left s with
  | O => (None, s)
  | Datatypes.S k =>
      (Some (bump_next s),
       mkBump (Pos.succ (bump_next s)) k (bump_released s))
  end.

Definition bump_delete (p : ptr) (s : Bump) : Bump :=
  match p with
  | None => s
  | Some a => mkBump (bump_next s) (bump_left s) (a :: bump_released s)
  end.

#[export] Instance Bump_SystemAllocator : SystemAllocator Bump :=
  {| operator_new := bump_new;
     operator_delete := bump_delete;
     operator_delete_null := fun _ => eq_refl |}.

(** ** lf_memory_allocator.hpp *)

Module MemoryAllocator.
Section WithSystem.
Context {sys : Type} `{SystemAllocator sys}.

(** [MemoryAllocator<T, 0>] *)
Definition alloc0 (a : sys) : ptr * sys := operator_new a.
Definition free0 (p : ptr) (a : sys) : sys := operator_delete p a.

(** [MemoryAllocator<T, 1>] *)
Record Single := mkSingle {
  mPtr : ptr;
  mAllocator1 : sys
}.

Definition alloc1 (m : Single) : ptr * Single :=
  let '(tmp, cellv) := Atomic.exchange (mPtr m) None in
  match tmp with
  | Some _ => (tmp, mkSingle cellv (mAllocator1 m))
  | None =>
      let '(p, a) := alloc0 (mAllocator1 m) in
      (p, mkSingle cellv a)
  end.

Definition free1 (p : ptr) (m : Single) : Single :=
  let '(tmp, cellv) := Atomic.exchange (mPtr m) p in
  match tmp with
  | Some _ => mkSingle cellv (free0 tmp (mAllocator1 m))
  | None => mkSingle cellv (mAllocator1 m)
  end.

(** [~MemoryAllocator()] of the specialisation: [free(nullptr)]. *)
Definition destroy1 (m : Single) : Single := free1 None m.

(** The primary template [MemoryAllocator<T, S>]. *)
Record Ring := mkRing {
  mQueueBuffer : list ptr;
  mHead : Z;
  mTail : Z;
  mAllocator : sys
}.

(** [IndexType]: 64 bits when [S > UINT32_MAX / 2], else 32 bits. *)
Definition index_bits (S : Z) : Z :=
  if S >? UINT32_MAX / 2 then 64 else 32.

(** [2 * S]: the product of an [int] and a [uint32_t] is computed in
    [unsigned int], whatever [IndexType] is. *)
Definition two_S (S : Z) : Z := wrap 32 (2 * S).

(** [(i + 1) % (2 * S)] for an index [i] of type [IndexType];
    the remainder by zero is undefined. *)
Definition next_index (S : Z) (i : Z) : option Z :=
  if two_S S =? 0 then None
  else Some (wrap (index_bits S) (i + 1) mod two_S S).

(** [i < S ? i : i - S] *)
Definition physical (S : Z) (i : Z) : Z :=
  if i <? S then i else wrap (index_bits S) (i - S).

(** [head + S == tail || tail + S == head] *)
Definition is_full (S : Z) (head tail : Z) : bool :=
  (wrap (index_bits S) (head + S) =? tail)
  || (wrap (index_bits S) (tail + S) =? head).

Definition set_mHead (v : Z) (r : Ring) : Ring :=
  mkRing (mQueueBuffer r) v (mTail r) (mAllocator r).
Definition set_mTail (v : Z) (r : Ring) : Ring :=
  mkRing (mQueueBuffer r) (mHead r) v (mAllocator r).
Definition set_mQueueBuffer (q : list ptr) (r : Ring) : Ring :=
  mkRing q (mHead r) (mTail r) (mAllocator r).
Definition set_mAllocator (a : sys) (r : Ring) : Ring :=
  mkRing (mQueueBuffer r) (mHead r) (mTail r) a.

(** The [while (true)] loop of [alloc]; [head] and [p] are the locals
    [head] and [ptr].  One unit of fuel pays for one iteration. *)
Fixpoint alloc_loop (fuel : nat) (S : Z) (r : Ring) (head : Z) (p : ptr)
    : option (ptr * Ring) :=
  match fuel with
  | O => None
  | Datatypes.S fuel' =>
      if head =? mTail r then Some (p, r)
      else
        nHead ← next_index S head;
        p' ← mQueueBuffer r !! Z.to_nat (physical S head);
        let '(ok, cellv, head') :=
          Atomic.compare_exchange_strong (mHead r) head nHead in
        if ok then Some (p', set_mHead cellv r)
        else alloc_loop fuel' S (set_mHead cellv r) head' p'
  end.

Definition allocS_fuel (fuel : nat) (S : Z) (r : Ring) : option (ptr * Ring) :=
  '(p, r') ← alloc_loop fuel S r (mHead r) None;
  match p with
  | Some _ => Some (p, r')
  | None =>
      let '(q, a) := alloc0 (mAllocator r') in
      Some (q, set_mAllocator a r')
  end.

(** The [do ... while (true)] loop of [free]; [tail] and [p] are the
    locals [tail] and [ptr] ([p] is non-null on entry). *)
Fixpoint free_loop (fuel : nat) (S : Z) (r : Ring) (tail : Z) (p : ptr)
    : option (ptr * Ring) :=
  match fuel with
  | O => None
  | Datatypes.S fuel' =>
      let head := mHead r in
      if is_full S head tail then Some (p, r)
      else
        nTail ← next_index S tail;
        let '(ok, cellv, tail') :=
          Atomic.compare_exchange_strong (mTail r) tail nTail in
        if ok then
          let rTail := Z.to_nat (physical S tail) in
          if decide (rTail < length (mQueueBuffer r))%nat then
            Some (None,
                  set_mQueueBuffer (<[rTail := p]> (mQueueBuffer r))
                                   (set_mTail cellv r))
          else None
        else free_loop fuel' S (set_mTail cellv r) tail' p
  end.

Definition freeS_fuel (fuel : nat) (S : Z) (p : ptr) (r : Ring) : option Ring :=
  match p with
  | None => Some r
  | Some _ =>
      '(p', r') ← free_loop fuel S r (mTail r) p;
      match p' with
      | Some _ => Some (set_mAllocator (free0 p' (mAllocator r')) r')
      | None => Some r'
      end
  end.

(** With no other thread between the load and the compare-exchange
    the first iteration always leaves the loop. *)
Definition allocS := allocS_fuel 1.
Definition freeS := freeS_fuel 1.

(** [MemoryAllocator<T, S>] for any [S]: the specialisation chosen by
    the template argument. *)
Inductive t : Type :=
| Direct (a : sys)
| OneSlot (m : Single)
| Primary (r : Ring).

(** A default-constructed allocator.  The counters of the primary
    template start at zero (value-initialised atomics); the initial
    content of its buffer is never read before it is written and is
    taken to be null. *)
Definition init (S : Z) (a : sys) : t :=
  if S =? 0 then Direct a
  else if S =? 1 then OneSlot (mkSingle None a)
  else Primary (mkRing (replicate (Z.to_nat S) None) 0 0 a).

Definition alloc (S : Z) (m : t) : option (ptr * t) :=
  match m with
  | Direct a => let '(p, a') := alloc0 a in Some (p, Direct a')
  | OneSlot s => let '(p, s') := alloc1 s in Some (p, OneSlot s')
  | Primary r => '(p, r') ← allocS S r; Some (p, Primary r')
  end.

Definition free (S : Z) (p : ptr) (m : t) : option t :=
  match m with
  | Direct a => Some (Direct (free0 p a))
  | OneSlot s => Some (OneSlot (free1 p s))
  | Primary r => r' ← freeS S p r; Some (Primary r')
  end.

(** The state has the shape of the specialisation selected by [S]. *)
Definition shape (S : Z) (m : t) : Prop :=
  match m with
  | Direct _ => S = 0
  | OneSlot _ => S = 1
  | Primary r => 1 < S <= UINT32_MAX /\ length (mQueueBuffer r) = Z.to_nat S
  end.

(** The counters of the primary template are inside the virtual index
    space, for a cache size whose double fits in 32 bits. *)
Definition ring_ok (S : Z) (r : Ring) : Prop :=
  1 < S <= UINT32_MAX / 2 /\
  length (mQueueBuffer r) = Z.to_nat S /\
  0 <= mHead r < 2 * S /\ 0 <= mTail r < 2 * S.

(** The blocks held in the cache. *)
Definition cached (m : t) : list ptr :=
  match m with
  | Direct _ => []
  | OneSlot s => [mPtr s]
  | Primary r => mQueueBuffer r
  end.

Definition system (m : t) : sys :=
  match m with
  | Direct a => a
  | OneSlot s => mAllocator1 s
  | Primary r => mAllocator r
  end.

(** *** The cache of the primary template as a queue

    The number of cached blocks is the distance from [mHead] to
    [mTail] in the virtual index space; the cached blocks are the
    entries of the buffer at the physical slots of the virtual indices
    [mHead], [mHead + 1], ... up to [mTail], oldest first. *)
Definition ring_count (S : Z) (r : Ring) : Z :=
  (mTail r - mHead r) mod (2 * S).

Fixpoint ring_from (S : Z) (q : list ptr) (i : Z) (n : nat) : list ptr :=
  match n with
  | O => []
  | Datatypes.S n' =>
      default None (q !! Z.to_nat (physical S i))
      :: ring_from S q ((i + 1) mod (2 * S)) n'
  end.

Definition ring_contents (S : Z) (r : Ring) : list ptr :=
  ring_from S (mQueueBuffer r) (mHead r) (Z.to_nat (ring_count S r)).

(** The counters are in range and at most [S] blocks are cached. *)
Definition ring_inv (S : Z) (r : Ring) : Prop :=
  ring_ok S r /\ ring_count S r <= S.



End WithSystem.
Arguments Single : clear implicits.
Arguments Ring : clear implicits.
Arguments t : clear implicits.
End MemoryAllocator.

(** ** Outcomes of member functions that may throw

    [Normal] and [Thrown] carry the state the object is left in;
    [Undefined] is undefined behaviour (or [std::terminate]). *)

Inductive outcome (E St A : Type) : Type :=
| Normal (a : A) (s : St)
| Thrown (e : E) (s : St)
| Undefined.
Arguments Normal {E St A} a s.
Arguments Thrown {E St A} e s.
Arguments Undefined {E St A}.

(** ** lf_object_allocator.hpp *)

Module ObjectAllocator.
Section WithElement.
Context {sys : Type} `{SystemAllocator sys} {T Args E : Type}.

(** [S]: the cache size.  [construct]: the constructor of [T], which
    returns the object or throws.  [nothrow]: the value of
    [std::is_nothrow_constructible<T, _Args...>]. *)
Variable S : Z.
Variable construct : Args -> E + T.
Variable nothrow : bool.

(** The allocator and the objects alive in the blocks it handed out. *)
Record t := mk {
  mMemoryAllocator : MemoryAllocator.t sys;
  objects : gmap addr T
}.

Definition alloc (args : Args) (o : t) : outcome E t ptr :=
  match MemoryAllocator.alloc S (mMemoryAllocator o) with
  | None => Undefined
  | Some (memory, m1) =>
      match memory with
      | None => Normal memory (mk m1 (objects o))
      | Some a =>
          match construct args with
          | inr v => Normal memory (mk m1 (<[a := v]> (objects o)))
          | inl e =>
              if nothrow then Undefined
              else
                match MemoryAllocator.free S memory m1 with
                | None => Undefined
                | Some m2 => Thrown e (mk m2 (objects o))
                end
          end
      end
  end.

(** [destroy]: the destructor of [T], which returns ([None]) or
    throws.  [nothrow_destructible], [is_fundamental]: the values of
    [std::is_nothrow_destructible<T>] and [std::is_fundamental<T>]. *)
Variable destroy : T -> option E.
Variable nothrow_destructible : bool.
Variable is_fundamental : bool.

(** [mMemoryAllocator.free(ptr)] at the end of an object's life. *)
Definition release (a : addr) (o : t) : option t :=
  m ← MemoryAllocator.free S (Some a) (mMemoryAllocator o);
  Some (mk m (delete a (objects o))).

Definition free (p : ptr) (o : t) : outcome E t unit :=
  match p with
  | None => Normal tt o
  | Some a =>
      if is_fundamental then
        match release a o with
        | Some o' => Normal tt o'
        | None => Undefined
        end
      else
        match objects o !! a with
        | None => Undefined
        | Some x =>
            match destroy x with
            | None =>
                match release a o with
                | Some o' => Normal tt o'
                | None => Undefined
                end
            | Some e =>
                if nothrow_destructible then Undefined
                else
                  match release a o with
                  | Some o' => Thrown e o'
                  | None => Undefined
                  end
            end
        end
  end.

End WithElement.
Arguments t : clear implicits.
End ObjectAllocator.

(** ** lf_chunk_list.hpp *)

(** The address of a slot: the chunk and the index in its [data]. *)
Definition slot : Type := addr * Z.

Module ChunkList.
Section WithElement.
Context {sys : Type} `{SystemAllocator sys} {T : Type}.

(** The template arguments: chunk size and cache size. *)
Variables N S : Z.

Record Chunk := mkChunk {
  data : list (cell T);
  prev : cell ptr;
  next : cell ptr
}.

(** A block as the allocator returns it: nothing in it is initialised. *)
Definition raw_chunk : Chunk :=
  mkChunk (replicate (Z.to_nat N) Raw) Raw Raw.

Definition set_data (d : list (cell T)) (c : Chunk) : Chunk :=
  mkChunk d (prev c) (next c).
Definition set_prev (p : ptr) (c : Chunk) : Chunk :=
  mkChunk (data c) (Holds p) (next c).
Definition set_next (p : ptr) (c : Chunk) : Chunk :=
  mkChunk (data c) (prev c) (Holds p).

(** The members of the class, and [heap]: the memory of the chunks
    that are alive, by address (allocated and not yet given back). *)
Record t := mk {
  mAllocator : MemoryAllocator.t sys;
  heap : gmap addr Chunk;
  mBeginChunk : ptr;
  mBeginPos : Z;
  mBackChunk : ptr;
  mBackPos : Z;
  mEndChunk : ptr;
  mEndPos : Z
}.

Definition set_heap (h : gmap addr Chunk) (l : t) : t :=
  mk (mAllocator l) h (mBeginChunk l) (mBeginPos l)
     (mBackChunk l) (mBackPos l) (mEndChunk l) (mEndPos l).
Definition set_begin (c : ptr) (i : Z) (l : t) : t :=
  mk (mAllocator l) (heap l) c i
     (mBackChunk l) (mBackPos l) (mEndChunk l) (mEndPos l).
Definition set_back (c : ptr) (i : Z) (l : t) : t :=
  mk (mAllocator l) (heap l) (mBeginChunk l) (mBeginPos l)
     c i (mEndChunk l) (mEndPos l).
Definition set_end (c : ptr) (i : Z) (l : t) : t :=
  mk (mAllocator l) (heap l) (mBeginChunk l) (mBeginPos l)
     (mBackChunk l) (mBackPos l) c i.

(** [mAllocator.alloc()]: the block that comes back is raw storage. *)
Definition chunk_alloc (l : t) : option (ptr * t) :=
  '(p, m) ← MemoryAllocator.alloc S (mAllocator l);
  let h := match p with
           | Some a => <[a := raw_chunk]> (heap l)
           | None => heap l
           end in
  Some (p, mk m h (mBeginChunk l) (mBeginPos l)
              (mBackChunk l) (mBackPos l) (mEndChunk l) (mEndPos l)).

(** [mAllocator.free(p)]: the block is no longer the list's to use. *)
Definition chunk_free (p : ptr) (l : t) : option t :=
  m ← MemoryAllocator.free S p (mAllocator l);
  let h := match p with
           | Some a => delete a (heap l)
           | None => heap l
           end in
  Some (mk m h (mBeginChunk l) (mBeginPos l)
           (mBackChunk l) (mBackPos l) (mEndChunk l) (mEndPos l)).

(** [c->prev] and [c->next] as rvalues, [c->prev = p], [c->next = p]. *)
Definition get_prev (c : ptr) (l : t) : option ptr :=
  a ← c; k ← heap l !! a; cell_get (prev k).
Definition get_next (c : ptr) (l : t) : option ptr :=
  a ← c; k ← heap l !! a; cell_get (next k).
Definition put_prev (c : ptr) (p : ptr) (l : t) : option t :=
  a ← c; k ← heap l !! a; Some (set_heap (<[a := set_prev p k]> (heap l)) l).
Definition put_next (c : ptr) (p : ptr) (l : t) : option t :=
  a ← c; k ← heap l !! a; Some (set_heap (<[a := set_next p k]> (heap l)) l).

(** The constructor. *)
Definition create (a : sys) : option t :=
  '(pchunk, l) ←
    chunk_alloc (mk (MemoryAllocator.init S a) ∅ None 0 None 0 None 0);
  Some (set_end pchunk 0 (set_back None 0 (set_begin pchunk 0 l))).

(** [&front()] and [&back()]. *)
Definition front_addr (l : t) : option slot :=
  c ← mBeginChunk l; Some (c, mBeginPos l).
Definition back_addr (l : t) : option slot :=
  c ← mBackChunk l; Some (c, mBackPos l).

(** Access to the element storage behind a slot address. *)
Definition load (p : slot) (l : t) : option T :=
  k ← heap l !! p.1;
  if decide (0 <= p.2) then x ← data k !! Z.to_nat p.2; cell_get x
  else None.
Definition store (p : slot) (x : cell T) (l : t) : option t :=
  k ← heap l !! p.1;
  if decide (0 <= p.2 /\ (Z.to_nat p.2 < length (data k))%nat) then
    Some (set_heap (<[p.1 := set_data (<[Z.to_nat p.2 := x]> (data k)) k]> (heap l)) l)
  else None.

Definition push (l : t) : option t :=
  let l1 := set_back (mEndChunk l) (mEndPos l) l in
  let l2 := set_end (mEndChunk l1) (wrap 32 (mEndPos l1 + 1)) l1 in
  if decide (mEndPos l2 ≠ N) then Some l2
  else
    '(sc, l3) ← chunk_alloc l2;
    l4 ← put_next (mEndChunk l3) sc l3;
    l5 ← put_prev sc (mEndChunk l4) l4;
    e ← get_next (mEndChunk l5) l5;
    Some (set_end e 0 l5).

Definition unpush (l : t) : option t :=
  l1 ← (if decide (mBackPos l ≠ 0) then
          Some (set_back (mBackChunk l) (mBackPos l - 1) l)
        else
          b ← get_prev (mBackChunk l) l;
          Some (set_back b (wrap 32 (N - 1)) l));
  if decide (mEndPos l1 ≠ 0) then
    Some (set_end (mEndChunk l1) (mEndPos l1 - 1) l1)
  else
    e ← get_prev (mEndChunk l1) l1;
    let l2 := set_end e (wrap 32 (N - 1)) l1 in
    n ← get_next (mEndChunk l2) l2;
    l3 ← chunk_free n l2;
    put_next (mEndChunk l3) None l3.

Definition pop (l : t) : option t :=
  let l1 := set_begin (mBeginChunk l) (wrap 32 (mBeginPos l + 1)) l in
  if decide (mBeginPos l1 = N) then
    let o := mBeginChunk l1 in
    b ← get_next (mBeginChunk l1) l1;
    l2 ← put_prev b None (set_begin b (mBeginPos l1) l1);
    chunk_free o (set_begin (mBeginChunk l2) 0 l2)
  else Some l1.

(** The destructor: the loop that walks from [mBeginChunk] to
    [mEndChunk] along [next] and gives every chunk to the allocator.
    One unit of fuel pays for one iteration. *)
Fixpoint destroy (fuel : nat) (l : t) : option t :=
  match fuel with
  | O => None
  | Datatypes.S fuel' =>
      if decide (mBeginChunk l = mEndChunk l) then
        chunk_free (mBeginChunk l) l
      else
        let tmp := mBeginChunk l in
        b ← get_next (mBeginChunk l) l;
        l1 ← chunk_free tmp (set_begin b (mBeginPos l) l);
        destroy fuel' l1
  end.

End WithElement.
Arguments Chunk : clear implicits.
Arguments t : clear implicits.
End ChunkList.

(** ** lf_pipe.hpp *)

Module Pipe.
Section WithElement.
Context {sys : Type} `{SystemAllocator sys} {T Args E : Type}.

(** [N], [S]: the template arguments.  [construct]: the constructor
    of [T] selected by [write], which returns the object or throws.
    [is_fundamental]: the value of [std::is_fundamental<T>].
    Destructors and move assignment are taken not to throw. *)
Variables N S : Z.
Variable construct : Args -> E + T.
Variable is_fundamental : bool.

Record t := mk {
  mChunkList : ChunkList.t sys T;
  mLastFlushEnd : option slot;
  mReadEnd : option slot;
  mFlushEnd : option slot;
  mCommitEnd : option slot
}.

Definition set_mChunkList (l : ChunkList.t sys T) (p : t) : t :=
  mk l (mLastFlushEnd p) (mReadEnd p) (mFlushEnd p) (mCommitEnd p).
Definition set_mLastFlushEnd (x : option slot) (p : t) : t :=
  mk (mChunkList p) x (mReadEnd p) (mFlushEnd p) (mCommitEnd p).
Definition set_mReadEnd (x : option slot) (p : t) : t :=
  mk (mChunkList p) (mLastFlushEnd p) x (mFlushEnd p) (mCommitEnd p).
Definition set_mFlushEnd (x : option slot) (p : t) : t :=
  mk (mChunkList p) (mLastFlushEnd p) (mReadEnd p) x (mCommitEnd p).
Definition set_mCommitEnd (x : option slot) (p : t) : t :=
  mk (mChunkList p) (mLastFlushEnd p) (mReadEnd p) (mFlushEnd p) x.

(** [Pipe()] on a system allocator in state [a]. *)
Definition create (a : sys) : option t :=
  l0 ← ChunkList.create N S a;
  l ← ChunkList.push N S l0;
  b ← ChunkList.back_addr l;
  Some (mk l (Some b) (Some b) (Some b) (Some b)).

(** [ctor(memory, args...)] once the constructor has produced [v]. *)
Definition ctor (memory : slot) (v : T) (l : ChunkList.t sys T)
    : option (ChunkList.t sys T) :=
  ChunkList.store memory (Holds v) l.

(** [dtor(ptr)]: nothing for a fundamental [T]. *)
Definition dtor (p : slot) (l : ChunkList.t sys T)
    : option (ChunkList.t sys T) :=
  if is_fundamental then Some l else ChunkList.store p Raw l.

(** [write(incomplete_, args...)]; the two-argument overloads
    [write(value_, incomplete_)] forward to it. *)
Definition write (incomplete_ : bool) (args : Args) (p : t) : outcome E t unit :=
  match ChunkList.back_addr (mChunkList p) with
  | None => Undefined
  | Some b =>
      match construct args with
      | inl e => Thrown e p
      | inr v =>
          match
            l1 ← ctor b v (mChunkList p);
            l2 ← ChunkList.push N S l1;
            b' ← ChunkList.back_addr l2;
            Some (if incomplete_ then set_mChunkList l2 p
                  else set_mFlushEnd (Some b') (set_mChunkList l2 p))
          with
          | Some p' => Normal tt p'
          | None => Undefined
          end
      end
  end.

(** [unwrite(value_)]: [Some v] when it returns true having assigned
    [v] to [value_], [None] when it returns false. *)
Definition unwrite (p : t) : option (option T * t) :=
  b ← ChunkList.back_addr (mChunkList p);
  if decide (mFlushEnd p = Some b) then Some (None, p)
  else
    l1 ← ChunkList.unpush N S (mChunkList p);
    b' ← ChunkList.back_addr l1;
    v ← ChunkList.load b' l1;
    l2 ← dtor b' l1;
    Some (Some v, set_mChunkList l2 p).

Definition flush (p : t) : bool * t :=
  if decide (mLastFlushEnd p = mFlushEnd p) then (true, p)
  else
    let '(ok, c, expected) :=
      Atomic.compare_exchange_strong
        (mCommitEnd p) (mLastFlushEnd p) (mFlushEnd p) in
    let p1 := set_mLastFlushEnd expected (set_mCommitEnd c p) in
    if ok then (true, set_mLastFlushEnd (mFlushEnd p1) p1)
    else
      let p2 := set_mCommitEnd (mFlushEnd p1) p1 in
      (false, set_mLastFlushEnd (mFlushEnd p2) p2).

Definition check_read (p : t) : option (bool * t) :=
  f ← ChunkList.front_addr (mChunkList p);
  if decide (Some f ≠ mReadEnd p /\ mReadEnd p ≠ None) then Some (true, p)
  else
    let '(ok, c, expected) :=
      Atomic.compare_exchange_strong (mCommitEnd p) (mReadEnd p) None in
    let p1 := set_mReadEnd expected (set_mCommitEnd c p) in
    if ok then Some (false, p1) else Some (true, p1).

(** [read(value_)]: [Some v] when it returns true having assigned [v]
    to [value_], [None] when it returns false. *)
Definition read (p : t) : option (option T * t) :=
  '(ok, p1) ← check_read p;
  if (ok : bool) then
    f ← ChunkList.front_addr (mChunkList p1);
    v ← ChunkList.load f (mChunkList p1);
    l1 ← dtor f (mChunkList p1);
    l2 ← ChunkList.pop N S l1;
    Some (Some v, set_mChunkList l2 p1)
  else Some (None, p1).

(** *** Runs: calls of the producer and of the consumer, interleaved *)

Inductive call : Type :=
| Write (args : Args) (incomplete_ : bool)
| Unwrite
| Flush
| CheckRead
| Read.

(** What a call did: [Flushed advancing r] is a [flush] that found
    [mFlushEnd != mLastFlushEnd] exactly when [advancing], and
    returned [r]. *)
Inductive event : Type :=
| Wrote
| WriteThrew (e : E)
| Unwrote (r : option T)
| Flushed (advancing : bool) (r : bool)
| Checked (r : bool)
| ReadGave (r : option T).

Definition step (c : call) (p : t) : option (event * t) :=
  match c with
  | Write args i =>
      match write i args p with
      | Normal _ p' => Some (Wrote, p')
      | Thrown e p' => Some (WriteThrew e, p')
      | Undefined => None
      end
  | Unwrite => '(r, p') ← unwrite p; Some (Unwrote r, p')
  | Flush =>
      let '(r, p') := flush p in
      Some (Flushed (bool_decide (mLastFlushEnd p ≠ mFlushEnd p)) r, p')
  | CheckRead => '(r, p') ← check_read p; Some (Checked r, p')
  | Read => '(r, p') ← read p; Some (ReadGave r, p')
  end.

Fixpoint run (cs : list call) (p : t) : option (list event * t) :=
  match cs with
  | [] => Some ([], p)
  | c :: cs' =>
      '(e, p1) ← step c p;
      '(es, p2) ← run cs' p1;
      Some (e :: es, p2)
  end.

(** The consumer found the pipe empty and went to sleep. *)
Definition slept (e : event) : bool :=
  match e with
  | Checked false => true
  | ReadGave None => true
  | _ => false
  end.

(** A [flush] that had something new to publish. *)
Definition advancing_flush (e : event) : bool :=
  match e with
  | Flushed true _ => true
  | _ => false
  end.

Definition any_flush (e : event) : bool :=
  match e with
  | Flushed _ _ => true
  | _ => false
  end.

(** *** Sleep signalling, as properties of the events of a run *)

(** The producer's cursors are never null. *)
Definition published (p : t) : Prop :=
  mLastFlushEnd p <> None /\ mFlushEnd p <> None.

(** After an event at which the consumer went to sleep, the next
    [flush] that has something to publish returns false. *)
Definition sleep_then_flush_false (es : list event) : Prop :=
  forall pre e mid r post,
    es = pre ++ e :: mid ++ Flushed true r :: post ->
    slept e = true ->
    forallb (fun x => negb (advancing_flush x)) mid = true ->
    r = false.

(** Every [flush] that returns true: the consumer did not go to sleep
    since the last [flush]. *)
Definition flush_true_no_sleep_since_flush (es : list event) : Prop :=
  forall pre mid adv post,
    es = pre ++ mid ++ Flushed adv true :: post ->
    forallb (fun x => negb (any_flush x)) mid = true ->
    forallb (fun x => negb (slept x)) mid = true.

(** Every [flush] that had something to publish and returns true: the
    consumer did not go to sleep since the last such [flush]. *)
Definition advancing_flush_true_no_sleep (es : list event) : Prop :=
  forall pre mid post,
    es = pre ++ mid ++ Flushed true true :: post ->
    forallb (fun x => negb (advancing_flush x)) mid = true ->
    forallb (fun x => negb (slept x)) mid = true.

End WithElement.
Arguments t : clear implicits.
Arguments call : clear implicits.
Arguments event : clear implicits.
End Pipe.

(** ** The demonstration program ([main]) *)

Module Demo.

(** [Pipe<int>]: [N = 128], [S = 1]; copying an [int] never throws. *)
Definition N : Z := 128.
Definition S : Z := 1.
Definition construct (v : Z) : Empty_set + Z := inr v.

Abbreviation pipe := (Pipe.t Bump Z).
Abbreviation call := (Pipe.call Z).
Abbreviation event := (Pipe.event Z Empty_set).

Definition run (cs : list call) (p : pipe) : option (list event * pipe) :=
  Pipe.run N S construct true cs p.

(** A system allocator with room for [budget] blocks. *)
Definition system (budget : nat) : Bump := mkBump 1%positive budget [].

Definition fresh : option pipe := Pipe.create N S (system 64).

(** [for (i = 0; i < 1024; ++i) pipe.write(i, true);] *)
Definition writes : list call :=
  map (fun i => Pipe.Write (Z.of_nat i) true) (seq 0 1024).

(** [for (i = 0; i < 512; ++i) pipe.unwrite(value);] *)
Definition unwrites : list call := replicate 512 Pipe.Unwrite.

(** [pipe.write(-1, false); pipe.flush();] *)
Definition publish : list call := [Pipe.Write (-1) false; Pipe.Flush].

(** [while (pipe.read(value)) ...]: the 513 reads that succeed and
    the one that ends the loop. *)
Definition reads : list call := replicate 514 Pipe.Read.

Definition main : list call := writes ++ unwrites ++ publish ++ reads.

End Demo.

(** ** Statements under test and concrete states *)

(** The sentence of C7 as the specification has it: [free(nullptr)]
    changes nothing, whatever the cache size. *)
Definition free_null_noop_stated : Prop :=
  forall (S : Z) (m : MemoryAllocator.t Bump),
    MemoryAllocator.shape S m -> MemoryAllocator.free S None m = Some m.

(** An [S = 1] allocator with block 7 in its cache slot. *)
Definition one_slot_holding_7 : MemoryAllocator.t Bump :=
  MemoryAllocator.OneSlot
    (MemoryAllocator.mkSingle (Some 7%positive) (mkBump 8%positive 4 [])).

(** A primary-template allocator with [S = 2] and one cached block. *)
Definition ring_of_2 : MemoryAllocator.t Bump :=
  MemoryAllocator.Primary
    (MemoryAllocator.mkRing [Some 3%positive; None] 0 1 (mkBump 8%positive 4 [])).

(** An element type whose constructor throws on negative arguments. *)
Definition picky (x : Z) : unit + Z :=
  if x <? 0 then inl tt else inr x.

(** An [ObjectAllocator<T, 1>] on an empty cache. *)
Definition objects_on_one_slot : ObjectAllocator.t Bump Z :=
  ObjectAllocator.mk
    (MemoryAllocator.init 1 (mkBump 1%positive 4 [])) ∅.

(** A chunk list with [N = 2] and [S = 1] whose only chunk has one
    element written and one slot reserved: the next [push] reaches the
    end of the chunk. *)
Definition two_slot_list : ChunkList.t Bump Z :=
  ChunkList.mk
    (MemoryAllocator.OneSlot (MemoryAllocator.mkSingle None (mkBump 2%positive 8 [])))
    {[ 1%positive := ChunkList.mkChunk [Holds 10; Raw] Raw Raw ]}
    (Some 1%positive) 0 (Some 1%positive) 0 (Some 1%positive) 1.


(** A pipe with [N = 2] and [S = 1] after [write(10, false)]: the
    write filled the first chunk and made [push] link a second one. *)
Definition tiny_pipe : Pipe.t Bump Z :=
  Eval vm_compute in
    from_option id (Pipe.mk two_slot_list None None None None)
      (p ← Pipe.create 2 1 (mkBump 1%positive 8 []);
       '(_, p') ← Pipe.run 2 1 (fun v : Z => inr v : Empty_set + Z) true
                    [Pipe.Write 10 false] p;
       Some p').

(** [tiny_pipe] after [write(11, true)]: one element is pending. *)
Definition tiny_pipe_pending : Pipe.t Bump Z :=
  Eval vm_compute in
    from_option id tiny_pipe
      ('(_, p') ← Pipe.run 2 1 (fun v : Z => inr v : Empty_set + Z) true
                    [Pipe.Write 11 true] tiny_pipe;
       Some p').

Definition tiny_list_unpushed : ChunkList.t Bump Z :=
  Eval vm_compute in
    from_option id two_slot_list
      (ChunkList.unpush 2 1 (Pipe.mChunkList tiny_pipe_pending)).

(** The sentence of C3 as the specification has it, for the
    demonstration pipe: both directions over every run from a fresh
    pipe, the second one for every [flush] that returns true. *)
Definition sleep_signalling_stated : Prop :=
  forall (cs : list Demo.call) (p0 p : Demo.pipe) (es : list Demo.event),
    Demo.fresh = Some p0 ->
    Demo.run cs p0 = Some (es, p) ->
    Pipe.sleep_then_flush_false es /\ Pipe.flush_true_no_sleep_since_flush es.

(** Producer writes and flushes, consumer reads the element and then
    finds the pipe empty, producer flushes again with nothing new. *)
Definition idle_flush_run : list Demo.call :=
  [Pipe.Write 7 false; Pipe.Flush; Pipe.Read; Pipe.Read; Pipe.Flush].

(** The freshly constructed demonstration pipe, evaluated. *)
Definition fresh_pipe : Demo.pipe :=
  Eval vm_compute in from_option id tiny_pipe Demo.fresh.

(** Producer writes and flushes, the consumer reads the element and
    then finds the pipe empty, the producer writes and flushes again,
    the consumer reads. *)
Definition wake_run : list Demo.call :=
  [Pipe.Write 1 false; Pipe.Flush; Pipe.Read; Pipe.Read;
   Pipe.Write 2 false; Pipe.Flush; Pipe.Read].

Definition wake_events : list Demo.event :=
  [Pipe.Wrote; Pipe.Flushed true true; Pipe.ReadGave (Some 1);
   Pipe.ReadGave None; Pipe.Wrote; Pipe.Flushed true false;
   Pipe.ReadGave (Some 2)].

Definition wake_end : Demo.pipe :=
  Eval vm_compute in
    from_option snd fresh_pipe (Demo.run wake_run fresh_pipe).

(** What [main] is expected to do: 1024 writes, the 512 unwrites
    giving 1023 down to 512, the final write and flush, the reads
    giving 0 up to 511 and then -1, and the read that fails. *)
Definition main_events : list Demo.event :=
  replicate 1024 Pipe.Wrote
  ++ map (fun i => Pipe.Unwrote (Some (1023 - Z.of_nat i))) (seq 0 512)
  ++ [Pipe.Wrote; Pipe.Flushed true true]
  ++ map (fun i => Pipe.ReadGave (Some (Z.of_nat i))) (seq 0 512)
  ++ [Pipe.ReadGave (Some (-1)); Pipe.ReadGave None].

(** A single [read] issued at any point of the run [cs] returns false:
    the pipe is probed before every call and after the last. *)
Fixpoint read_false_at_every_point (cs : list Demo.call) (p : Demo.pipe) : bool :=
  match Pipe.read Demo.N Demo.S true p with
  | Some (None, _) =>
      match cs with
      | [] => true
      | c :: cs' =>
          match Pipe.step Demo.N Demo.S Demo.construct true c p with
          | Some (_, p') => read_false_at_every_point cs' p'
          | None => false
          end
      end
  | _ => false
  end.

(** The 1024 writes, then two unwrites each followed by a read of the
    consumer. *)
Definition unwrites_with_reads : list Demo.call :=
  Demo.writes ++ [Pipe.Unwrite; Pipe.Read; Pipe.Unwrite; Pipe.Read].

(** ** Concrete states for the further properties *)

(** A primary-template ring with [S = 2] holding block 3. *)
Definition ring_holding_3 : MemoryAllocator.Ring Bump :=
  MemoryAllocator.mkRing [Some 3%positive; None] 0 1 (mkBump 8%positive 4 []).

(** An [S = 1] allocator with an empty slot on a system allocator
    that has no memory left. *)
Definition one_slot_exhausted : MemoryAllocator.t Bump :=
  MemoryAllocator.OneSlot (MemoryAllocator.mkSingle None (mkBump 8%positive 0 [])).

(** A destructor that throws on negative values. *)
Definition grumpy (x : Z) : option unit :=
  if x <? 0 then Some tt else None.

(** An [ObjectAllocator<T, 1>] whose block 1 holds the object [-4]. *)
Definition objects_holding_minus_4 : ObjectAllocator.t Bump Z :=
  ObjectAllocator.mk
    (MemoryAllocator.OneSlot (MemoryAllocator.mkSingle None (mkBump 2%positive 3 [])))
    {[ 1%positive := -4 ]}.

(** [tiny_pipe]'s chunk list with the begin position at the last slot
    of the first chunk: the next [pop] leaves the chunk. *)
Definition tiny_list_at_chunk_end : ChunkList.t Bump Z :=
  ChunkList.set_begin (Some 1%positive) 1 (Pipe.mChunkList tiny_pipe).

Definition tiny_list_popped : ChunkList.t Bump Z :=
  Eval vm_compute in
    from_option id two_slot_list (ChunkList.pop 2 1 tiny_list_at_chunk_end).

(** The calls of the producer thread; the others are the consumer's. *)
Definition producer_call {Args : Type} (c : Pipe.call Args) : bool :=
  match c with
  | Pipe.Write _ _ | Pipe.Unwrite | Pipe.Flush => true
  | Pipe.CheckRead | Pipe.Read => false
  end.

(** A write that stays tentative, or the retraction of one. *)
Definition tentative_call {Args : Type} (c : Pipe.call Args) : bool :=
  match c with
  | Pipe.Write _ true | Pipe.Unwrite => true
  | _ => false
  end.

(** [tiny_pipe] after [write(11, true)] and [unwrite]. *)
Definition tiny_pipe_retracted : Pipe.t Bump Z :=
  Eval vm_compute in
    from_option snd tiny_pipe
      (Pipe.run 2 1 (fun v : Z => inr v : Empty_set + Z) true
         [Pipe.Write 11 true; Pipe.Unwrite] tiny_pipe).

(** ** The pipe as a queue

    [Queue] is the queue the pipe is meant to implement, written
    without chunks and addresses: the elements written and not yet
    read, how many of them [mReadEnd], [mLastFlushEnd] and [mFlushEnd]
    have behind them, counted from the front, and whether the
    consumer is asleep.  A consumer call made while asleep is outside
    the protocol and has no result. *)

Module Queue.
Section WithElement.
Context {T E : Type}.

Record t := mk {
  items : list T;
  nread : nat;
  nlast : nat;
  nflush : nat;
  asleep : bool
}.



Definition write (v : T) (incomplete_ : bool) (q : t) : t :=
  mk (items q ++ [v]) (nread q) (nlast q)
     (if incomplete_ then nflush q else Datatypes.S (length (items q)))
     (asleep q).

Definition unwrite (q : t) : option T * t :=
  if decide (nflush q = length (items q)) then (None, q)
  else (last (items q),
        mk (removelast (items q)) (nread q) (nlast q) (nflush q) (asleep q)).

(** Whether there was something to publish, the result, the state. *)
Definition flush (q : t) : bool * bool * t :=
  if decide (nlast q = nflush q) then (false, true, q)
  else (true, negb (asleep q),
        mk (items q) (nread q) (nflush q) (nflush q) false).

Definition check_read (q : t) : option (bool * t) :=
  if asleep q then None
  else if decide (nread q <> 0)%nat then Some (true, q)
  else if decide (nlast q = 0)%nat then
    Some (false, mk (items q) (nread q) (nlast q) (nflush q) true)
  else Some (true, mk (items q) (nlast q) (nlast q) (nflush q) false).

Definition read (q : t) : option (option T * t) :=
  '(ok, q1) ← check_read q;
  if (ok : bool) then
    match items q1 with
    | v :: rest =>
        Some (Some v,
              mk rest (Nat.pred (nread q1)) (Nat.pred (nlast q1))
                 (Nat.pred (nflush q1)) (asleep q1))
    | [] => None
    end
  else Some (None, q1).

Definition step (c : Pipe.call T) (q : t) : option (Pipe.event T E * t) :=
  match c with
  | Pipe.Write v i => Some (Pipe.Wrote, write v i q)
  | Pipe.Unwrite => let '(r, q') := unwrite q in Some (Pipe.Unwrote r, q')
  | Pipe.Flush => let '(adv, r, q') := flush q in Some (Pipe.Flushed adv r, q')
  | Pipe.CheckRead => '(r, q') ← check_read q; Some (Pipe.Checked r, q')
  | Pipe.Read => '(r, q') ← read q; Some (Pipe.ReadGave r, q')
  end.

Fixpoint run (cs : list (Pipe.call T)) (q : t) : option (list (Pipe.event T E) * t) :=
  match cs with
  | [] => Some ([], q)
  | c :: cs' =>
      '(e, q1) ← step c q;
      '(es, q2) ← run cs' q1;
      Some (e :: es, q2)
  end.

End WithElement.
Arguments t : clear implicits.
End Queue.

(** How a pipe on the bump allocator represents a queue. *)

Section Representation.
Context {T : Type}.
Variables N S : Z.

(** The slot with number [g], counting from the first slot of the
    first chunk of the chain [cs]. *)
Definition slot_at (cs : list addr) (g : Z) : option slot :=
  c ← cs !! Z.to_nat (g / N); Some (c, g mod N).






(** The blocks the system allocator can still deliver. *)
Definition budget (p : Pipe.t Bump T) : nat :=
  bump_left (MemoryAllocator.system (ChunkList.mAllocator (Pipe.mChunkList p))).


End Representation.






(** A pipe with chunks of one slot on a system allocator that has
    nothing left after the two blocks of the constructor. *)
Definition starved_pipe : Pipe.t Bump Z :=
  Eval vm_compute in
    from_option id tiny_pipe (Pipe.create 1 0 (mkBump 1%positive 2 [])).

(** * Properties *)

(** ** The memory allocator *)

Section MemoryAllocatorFacts.
Context {sys : Type} `{SystemAllocator sys}.
Import MemoryAllocator.

Lemma compare_exchange_same {A} `{EqDecision A} (a d : A) :
  Atomic.compare_exchange_strong a a d = (true, d, a).
Proof. unfold Atomic.compare_exchange_strong. by rewrite decide_True. Qed.

(** Without interference the loops leave in their first iteration:
    more fuel never changes the result. *)
Lemma alloc_loop_fuel (n : nat) (S : Z) (r : Ring sys) (p : ptr) :
  alloc_loop (Datatypes.S n) S r (mHead r) p = alloc_loop 1 S r (mHead r) p.
Proof.
  simpl. destruct (mHead r =? mTail r); [done|].
  destruct (next_index S (mHead r)) as [nHead|]; [|done]. simpl.
  destruct (mQueueBuffer r !! Z.to_nat (physical S (mHead r))); [|done].
  simpl. by rewrite compare_exchange_same.
Qed.

Lemma free_loop_fuel (n : nat) (S : Z) (r : Ring sys) (p : ptr) :
  free_loop (Datatypes.S n) S r (mTail r) p = free_loop 1 S r (mTail r) p.
Proof.
  simpl. destruct (is_full S (mHead r) (mTail r)); [done|].
  destruct (next_index S (mTail r)) as [nTail|]; [|done]. simpl.
  by rewrite compare_exchange_same.
Qed.

Lemma allocS_fuel_enough (n : nat) (S : Z) (r : Ring sys) :
  allocS_fuel (Datatypes.S n) S r = allocS S r.
Proof. unfold allocS, allocS_fuel. by rewrite alloc_loop_fuel. Qed.

Lemma freeS_fuel_enough (n : nat) (S : Z) (p : ptr) (r : Ring sys) :
  freeS_fuel (Datatypes.S n) S p r = freeS S p r.
Proof.
  unfold freeS, freeS_fuel. destruct p; [|done]. by rewrite free_loop_fuel.
Qed.

(** A block given to [free] is afterwards in the cache, or it was
    handed to the system allocator. *)
Lemma free_keeps_or_releases (S : Z) (a : addr) (m m' : t sys) :
  free S (Some a) m = Some m' ->
  Some a ∈ cached m' \/ system m' = operator_delete (Some a) (system m).
Proof.
  destruct m as [s|s|r]; simpl.
  - intros [= <-]. by right.
  - intros [= <-]. left. unfold free1. simpl.
    destruct (mPtr s); simpl; apply list_elem_of_singleton; done.
  - unfold freeS, freeS_fuel. simpl.
    destruct (is_full S (mHead r) (mTail r)); simpl.
    { intros [= <-]. by right. }
    destruct (next_index S (mTail r)) as [nTail|]; simpl; [|done].
    rewrite compare_exchange_same.
    destruct (decide _) as [Hlt|]; simpl; [|done].
    intros [= <-]. left. simpl.
    apply list_elem_of_lookup. exists (Z.to_nat (physical S (mTail r))).
    by apply list_lookup_insert_eq.
Qed.

(** For [1 < S <= UINT32_MAX / 2] the counters are 32 bits wide, the
    wrap modulus is [2 * S], and the physical index is below [S]. *)
Lemma ring_arithmetic_small (S i : Z) :
  1 < S <= UINT32_MAX / 2 -> 0 <= i < 2 * S ->
  index_bits S = 32 /\
  next_index S i = Some ((i + 1) mod (2 * S)) /\
  0 <= physical S i < S /\
  (physical S i = i \/ physical S i = i - S).
Proof.
  intros HS Hi. unfold UINT32_MAX in HS.
  change ((2 ^ 32 - 1) / 2) with 2147483647 in HS.
  assert (Hb : index_bits S = 32).
  { unfold index_bits, UINT32_MAX.
    change ((2 ^ 32 - 1) / 2) with 2147483647.
    destruct (Z.gtb_spec S 2147483647); [lia|done]. }
  assert (H2 : two_S S = 2 * S).
  { unfold two_S, wrap. change (2 ^ 32) with 4294967296.
    apply Z.mod_small. lia. }
  split; [done|]. split.
  - unfold next_index. rewrite H2, Hb.
    destruct (Z.eqb_spec (2 * S) 0); [lia|].
    unfold wrap. change (2 ^ 32) with 4294967296.
    rewrite (Z.mod_small (i + 1)); [done | lia].
  - unfold physical. rewrite Hb. destruct (Z.ltb_spec i S).
    + split; [lia | by left].
    + unfold wrap. change (2 ^ 32) with 4294967296.
      rewrite Z.mod_small by lia. split; [lia | by right].
Qed.

(** While [3 * S] fits in 32 bits the sums of the fullness test do not
    wrap, and the test is exact. *)
Lemma is_full_exact_small (S h t : Z) :
  1 < S -> 3 * S <= 2 ^ 32 -> 0 <= h < 2 * S -> 0 <= t < 2 * S ->
  is_full S h t = true <-> (h + S = t \/ t + S = h).
Proof.
  intros HS H3 Hh Ht. change (2 ^ 32) with 4294967296 in H3.
  assert (Hb : index_bits S = 32).
  { unfold index_bits, UINT32_MAX.
    change ((2 ^ 32 - 1) / 2) with 2147483647.
    destruct (Z.gtb_spec S 2147483647); [lia|done]. }
  unfold is_full. rewrite Hb. unfold wrap. change (2 ^ 32) with 4294967296.
  rewrite !Z.mod_small by lia.
  rewrite orb_true_iff, !Z.eqb_eq. done.
Qed.

(** Inside the virtual index space the primary template's [alloc] and
    [free] are defined and keep the counters inside it. *)
Lemma allocS_defined (S : Z) (r : Ring sys) :
  ring_ok S r ->
  exists p r', allocS S r = Some (p, r') /\ ring_ok S r'.
Proof.
  intros (HS & Hlen & Hh & Ht).
  destruct (ring_arithmetic_small S (mHead r) HS Hh) as (_ & Hn & Hp & _).
  unfold allocS, allocS_fuel. simpl.
  destruct (Z.eqb_spec (mHead r) (mTail r)) as [Heq|Hne]; simpl.
  - destruct (alloc0 (mAllocator r)) as [q a]. eexists _, _.
    split; [done|]. repeat split; simpl; done || lia.
  - rewrite Hn. simpl.
    destruct (mQueueBuffer r !! Z.to_nat (physical S (mHead r))) as [p|] eqn:Hq.
    2:{ apply lookup_ge_None in Hq. lia. }
    simpl. rewrite compare_exchange_same. simpl.
    assert (Hm : 0 <= (mHead r + 1) mod (2 * S) < 2 * S)
      by (apply Z.mod_pos_bound; lia).
    destruct p as [b|].
    + eexists _, _. split; [done|]. repeat split; simpl; done || lia.
    + simpl. destruct (alloc0 (mAllocator r)) as [q a]. eexists _, _.
      split; [done|]. repeat split; simpl; done || lia.
Qed.

Lemma freeS_defined (S : Z) (p : ptr) (r : Ring sys) :
  ring_ok S r ->
  exists r', freeS S p r = Some r' /\ ring_ok S r'.
Proof.
  intros (HS & Hlen & Hh & Ht).
  destruct (ring_arithmetic_small S (mTail r) HS Ht) as (_ & Hn & Hp & _).
  unfold freeS, freeS_fuel. destruct p as [b|]; [|by exists r].
  simpl. destruct (is_full S (mHead r) (mTail r)); simpl.
  - eexists. split; [done|]. repeat split; simpl; done || lia.
  - rewrite Hn. simpl. rewrite compare_exchange_same.
    rewrite decide_True by lia. eexists. split; [done|].
    assert (Hm : 0 <= (mTail r + 1) mod (2 * S) < 2 * S)
      by (apply Z.mod_pos_bound; lia).
    repeat split; simpl; try done; try lia.
    by rewrite length_insert.
Qed.

(** The destructor of the [S = 1] specialisation releases the cached
    block: this is what its [free(nullptr)] is for. *)
Lemma destroy1_releases (a : addr) (m : Single sys) :
  mPtr m = Some a ->
  destroy1 m = mkSingle None (operator_delete (Some a) (mAllocator1 m)).
Proof. intros Hm. unfold destroy1, free1, free0. simpl. by rewrite Hm. Qed.

End MemoryAllocatorFacts.

Section FreeNull.
Context {sys : Type} `{SystemAllocator sys}.
Import MemoryAllocator.

(** C7 (amended): [free(nullptr)] changes nothing in the primary
    template ([S > 1]) and in the [S = 0] specialisation.  In the
    [S = 1] specialisation it exchanges the cache slot with null and
    releases the block that was cached, so it changes nothing only
    when the slot was already empty. *)
Theorem free_null (S : Z) (m : t sys) :
  shape S m ->
  (S <> 1 -> free S None m = Some m) /\
  (S = 1 ->
   exists s, m = OneSlot s /\
     free S None m =
       Some (OneSlot (mkSingle None
               (match mPtr s with
                | Some _ => operator_delete (mPtr s) (mAllocator1 s)
                | None => mAllocator1 s
                end))) /\
     (free S None m = Some m <-> mPtr s = None)).
Proof.
  intros Hshape. destruct m as [a|s|r]; simpl in Hshape.
  - split; [|lia]. intros _. simpl. unfold free0.
    by rewrite operator_delete_null.
  - split; [done|]. intros _. exists s. split; [done|].
    destruct s as [p a]. simpl. unfold free1, free0. simpl.
    destruct p as [b|]; simpl.
    + split; [done|]. split; [intros [=] | intros [=]].
    + split; [done|]. split; done.
  - split; [|lia]. intros _. simpl. done.
Qed.

End FreeNull.

(** C7, counterexample: with [S = 1] and block 7 cached,
    [free(nullptr)] empties the slot and releases block 7. *)
Lemma free_null_noop_stated_fails : ~ free_null_noop_stated.
Proof.
  intros Hst. specialize (Hst 1 one_slot_holding_7 eq_refl).
  vm_compute in Hst. discriminate Hst.
Qed.

Lemma free_null_one_slot_effect :
  MemoryAllocator.free 1 None one_slot_holding_7 =
  Some (MemoryAllocator.OneSlot
          (MemoryAllocator.mkSingle None (mkBump 8%positive 4 [7%positive]))).
Proof. reflexivity. Qed.

Lemma free_null_witness :
  (2 <> 1 -> MemoryAllocator.free 2 None ring_of_2 = Some ring_of_2) /\
  (2 = 1 ->
   exists s, ring_of_2 = MemoryAllocator.OneSlot s /\
     MemoryAllocator.free 2 None ring_of_2 =
       Some (MemoryAllocator.OneSlot (MemoryAllocator.mkSingle None
               (match MemoryAllocator.mPtr s with
                | Some _ => operator_delete (MemoryAllocator.mPtr s)
                              (MemoryAllocator.mAllocator1 s)
                | None => MemoryAllocator.mAllocator1 s
                end))) /\
     (MemoryAllocator.free 2 None ring_of_2 = Some ring_of_2 <->
      MemoryAllocator.mPtr s = None)).
Proof.
  apply (free_null 2 ring_of_2). simpl. unfold UINT32_MAX. split; [lia | reflexivity].
Defined.

(** C8, the code at the failing inputs.  For [S = 2^31 + 1] the
    counters are 64 bits wide, yet [2 * S] is evaluated in 32 bits and
    is 2: index 1 is followed by 0, not by 2.  For [S = 2^31] the
    product is 0 and the remainder is undefined.  For [S = 2^31 - 1]
    the counters are 32 bits wide and [head + S] wraps: the ring with
    [head = 2^32 - 3] and [tail = 2^31 - 4] is reported full although
    neither [head + S = tail] nor [tail + S = head]. *)
Theorem ring_modulus_large_S :
  MemoryAllocator.index_bits (2 ^ 31 + 1) = 64 /\
  MemoryAllocator.two_S (2 ^ 31 + 1) = 2 /\
  MemoryAllocator.next_index (2 ^ 31 + 1) 1 = Some 0 /\
  (1 + 1) mod (2 * (2 ^ 31 + 1)) = 2 /\
  MemoryAllocator.next_index (2 ^ 31) 0 = None /\
  MemoryAllocator.index_bits (2 ^ 31 - 1) = 32 /\
  MemoryAllocator.is_full (2 ^ 31 - 1) (2 ^ 32 - 3) (2 ^ 31 - 4) = true /\
  (2 ^ 32 - 3) + (2 ^ 31 - 1) <> 2 ^ 31 - 4 /\
  (2 ^ 31 - 4) + (2 ^ 31 - 1) <> 2 ^ 32 - 3.
Proof. repeat split; try reflexivity; vm_compute; discriminate. Qed.

(** ** The object allocator *)

Section ObjectAllocatorFacts.
Context {sys : Type} `{SystemAllocator sys} {T Args E : Type}.
Variable S : Z.
Variable construct : Args -> E + T.


End ObjectAllocatorFacts.


(** ** The chunk list *)

Section ChunkListFacts.
Context {sys : Type} `{SystemAllocator sys} {T : Type}.
Variables N S : Z.
Import ChunkList.

Local Abbreviation list_t := (ChunkList.t sys T).
Local Abbreviation push := (ChunkList.push N S).
Local Abbreviation unpush := (ChunkList.unpush N S).

(** [push] inside a chunk: only the two cursors move. *)
Lemma push_within (l : list_t) :
  wrap 32 (mEndPos l + 1) <> N ->
  push l = Some (mk (mAllocator l) (heap l) (mBeginChunk l) (mBeginPos l)
                    (mEndChunk l) (mEndPos l)
                    (mEndChunk l) (wrap 32 (mEndPos l + 1))).
Proof.
  intros Hne. unfold ChunkList.push. simpl. by rewrite decide_True.
Qed.

(** [push] at the end of a chunk, whenever it is defined. *)
Lemma push_boundary (l l' : list_t) :
  wrap 32 (mEndPos l + 1) = N ->
  push l = Some l' ->
  exists e sc m',
    mEndChunk l = Some e /\
    MemoryAllocator.alloc S (mAllocator l) = Some (Some sc, m') /\
    mAllocator l' = m' /\
    mBackChunk l' = Some e /\ mBackPos l' = mEndPos l /\
    mEndChunk l' = Some sc /\ mEndPos l' = 0 /\
    mBeginChunk l' = mBeginChunk l /\ mBeginPos l' = mBeginPos l /\
    get_next (Some e) l' = Some (Some sc) /\
    get_prev (Some sc) l' = Some (Some e).
Proof.
  intros HN. unfold ChunkList.push. simpl. rewrite decide_False by (intros Hc; by apply Hc).
  unfold chunk_alloc. simpl.
  destruct (MemoryAllocator.alloc S (mAllocator l)) as [[sc m']|]; simpl; [|done].
  unfold put_next at 1. simpl.
  destruct (mEndChunk l) as [e|] eqn:He; simpl; [|done].
  destruct sc as [s|]; simpl.
  - destruct (decide (s = e)) as [->|Hse].
    + rewrite lookup_insert_eq. simpl.
      unfold put_prev. simpl. rewrite lookup_insert_eq. simpl.
      unfold get_next. simpl. rewrite lookup_insert_eq. simpl.
      intros [= <-]. exists e, e, m'. simpl.
      unfold get_next, get_prev. simpl. rewrite !lookup_insert_eq. simpl.
      repeat split; done.
    + rewrite lookup_insert_ne by done.
      destruct (heap l !! e) as [k|] eqn:Hk; simpl; [|done].
      unfold put_prev. simpl.
      rewrite lookup_insert_ne by done. rewrite lookup_insert_eq. simpl.
      unfold get_next. simpl.
      rewrite lookup_insert_ne by done. rewrite lookup_insert_eq. simpl.
      intros [= <-]. exists e, s, m'. simpl.
      unfold get_next, get_prev. simpl.
      rewrite lookup_insert_eq.
      rewrite lookup_insert_ne by done. rewrite lookup_insert_eq. simpl.
      repeat split; done.
  - destruct (heap l !! e) as [k|]; simpl; [|done].
    unfold put_prev. simpl. done.
Qed.


(** [unpush] when neither cursor is at the start of a chunk. *)
Lemma unpush_within (l : list_t) :
  mBackPos l <> 0 -> mEndPos l <> 0 ->
  unpush l = Some (mk (mAllocator l) (heap l) (mBeginChunk l) (mBeginPos l)
                      (mBackChunk l) (mBackPos l - 1)
                      (mEndChunk l) (mEndPos l - 1)).
Proof.
  intros Hb He. unfold ChunkList.unpush.
  rewrite decide_True by done. simpl. by rewrite decide_True.
Qed.

(** What [unpush] does to the back cursor, whenever it is defined. *)
Lemma unpush_back (l l' : list_t) :
  unpush l = Some l' ->
  (mBackPos l <> 0 ->
   mBackChunk l' = mBackChunk l /\ mBackPos l' = mBackPos l - 1) /\
  (mBackPos l = 0 ->
   get_prev (mBackChunk l) l = Some (mBackChunk l') /\
   mBackPos l' = wrap 32 (N - 1)) /\
  mBeginChunk l' = mBeginChunk l /\ mBeginPos l' = mBeginPos l.
Proof.
  unfold ChunkList.unpush. intros Hu.
  destruct (decide (mBackPos l <> 0)) as [Hb|Hb]; simpl in Hu.
  - destruct (decide (mEndPos l <> 0)) as [He|He]; simpl in Hu.
    + injection Hu as <-. simpl. repeat split; done.
    + destruct (get_prev (mEndChunk l) _) as [e|]; simpl in Hu; [|done].
      destruct (get_next e _) as [n|]; simpl in Hu; [|done].
      unfold chunk_free in Hu. simpl in Hu.
      destruct (MemoryAllocator.free S n (mAllocator l)); simpl in Hu; [|done].
      unfold put_next in Hu. simpl in Hu.
      destruct e as [e|]; simpl in Hu; [|done].
      destruct (_ !! e); simpl in Hu; [|done].
      injection Hu as <-. simpl. repeat split; done.
  - assert (Hb0 : mBackPos l = 0) by (destruct (decide (mBackPos l = 0)); [done | exfalso; by apply Hb]).
    destruct (get_prev (mBackChunk l) l) as [b|]; simpl in Hu; [|done].
    destruct (decide (mEndPos l <> 0)) as [He|He]; simpl in Hu.
    + injection Hu as <-. simpl. repeat split; done.
    + destruct (get_prev (mEndChunk l) _) as [e|]; simpl in Hu; [|done].
      destruct (get_next e _) as [n|]; simpl in Hu; [|done].
      unfold chunk_free in Hu. simpl in Hu.
      destruct (MemoryAllocator.free S n (mAllocator l)); simpl in Hu; [|done].
      unfold put_next in Hu. simpl in Hu.
      destruct e as [e|]; simpl in Hu; [|done].
      destruct (_ !! e); simpl in Hu; [|done].
      injection Hu as <-. simpl. repeat split; done.
Qed.




End ChunkListFacts.


(** ** The pipe *)

Section PipeFacts.
Context {sys : Type} `{SystemAllocator sys} {T Args E : Type}.
Variables N S : Z.
Variable construct : Args -> E + T.
Variable is_fundamental : bool.
Import Pipe.

Local Abbreviation pipe := (Pipe.t sys T).
Local Abbreviation write := (Pipe.write N S construct).
Local Abbreviation unwrite := (Pipe.unwrite N S is_fundamental).
Local Abbreviation read := (Pipe.read N S is_fundamental).
Local Abbreviation step := (Pipe.step N S construct is_fundamental).
Local Abbreviation run := (Pipe.run N S construct is_fundamental).


(** Element storage: what was stored is what is loaded, a slot that
    can be loaded can be stored to, and storing moves no cursor. *)
Lemma store_load (b : slot) (x : cell T) (l l' : ChunkList.t sys T) :
  ChunkList.store b x l = Some l' -> ChunkList.load b l' = cell_get x.
Proof.
  unfold ChunkList.store, ChunkList.load.
  destruct (ChunkList.heap l !! b.1) as [k|]; simpl; [|done].
  destruct (decide _) as [[H0 Hlt]|]; [|done].
  intros [= <-]. simpl. rewrite lookup_insert_eq. simpl.
  rewrite decide_True by done. rewrite list_lookup_insert_eq by done. done.
Qed.

Lemma load_store_defined (b : slot) (v : T) (x : cell T) (l : ChunkList.t sys T) :
  ChunkList.load b l = Some v -> is_Some (ChunkList.store b x l).
Proof.
  unfold ChunkList.store, ChunkList.load.
  destruct (ChunkList.heap l !! b.1) as [k|]; simpl; [|done].
  destruct (decide (0 <= b.2)) as [H0|]; [|done].
  destruct (ChunkList.data k !! Z.to_nat b.2) as [y|] eqn:Hy; simpl; [|done].
  intros _. apply lookup_lt_Some in Hy. rewrite decide_True by done. eauto.
Qed.

Lemma store_cursors (b : slot) (x : cell T) (l l' : ChunkList.t sys T) :
  ChunkList.store b x l = Some l' ->
  ChunkList.mAllocator l' = ChunkList.mAllocator l /\
  ChunkList.mBeginChunk l' = ChunkList.mBeginChunk l /\
  ChunkList.mBeginPos l' = ChunkList.mBeginPos l /\
  ChunkList.mBackChunk l' = ChunkList.mBackChunk l /\
  ChunkList.mBackPos l' = ChunkList.mBackPos l /\
  ChunkList.mEndChunk l' = ChunkList.mEndChunk l /\
  ChunkList.mEndPos l' = ChunkList.mEndPos l.
Proof.
  unfold ChunkList.store.
  destruct (ChunkList.heap l !! b.1) as [k|]; simpl; [|done].
  destruct (decide _); [|done]. intros [= <-]. done.
Qed.

(** The destructor call of [unwrite] and [read]: defined on a slot
    that holds an object; afterwards the slot holds none, unless [T]
    is fundamental and nothing is done. *)
Lemma dtor_defined (b : slot) (v : T) (l : ChunkList.t sys T) :
  ChunkList.load b l = Some v ->
  exists l', Pipe.dtor is_fundamental b l = Some l' /\
    (is_fundamental = false -> ChunkList.load b l' = None) /\
    (is_fundamental = true -> l' = l) /\
    ChunkList.back_addr l' = ChunkList.back_addr l /\
    ChunkList.front_addr l' = ChunkList.front_addr l.
Proof.
  intros Hl. unfold Pipe.dtor. destruct is_fundamental.
  - exists l. repeat split; done.
  - destruct (load_store_defined b v Raw l Hl) as [l' Hs]. exists l'.
    split; [done|]. split; [intros _; by rewrite (store_load _ _ _ _ Hs)|].
    split; [done|].
    destruct (store_cursors _ _ _ _ Hs) as (_ & Hbc & Hbp & Hkc & Hkp & _).
    unfold ChunkList.back_addr, ChunkList.front_addr.
    by rewrite Hbc, Hbp, Hkc, Hkp.
Qed.

(** C1: [flush] touches neither the chunk list nor [mReadEnd] nor
    [mFlushEnd].  With [mLastFlushEnd == mFlushEnd] it returns true
    and changes nothing.  Otherwise, when the compare-exchange finds
    [mCommitEnd == mLastFlushEnd] it succeeds: [mCommitEnd] and
    [mLastFlushEnd] become [mFlushEnd] and the result is true; when it
    fails, [mFlushEnd] is stored into [mCommitEnd], [mLastFlushEnd]
    becomes [mFlushEnd] and the result is false. *)
Theorem flush_cases (p : pipe) :
  mChunkList (flush p).2 = mChunkList p /\
  mReadEnd (flush p).2 = mReadEnd p /\
  mFlushEnd (flush p).2 = mFlushEnd p /\
  (mLastFlushEnd p = mFlushEnd p -> flush p = (true, p)) /\
  (mLastFlushEnd p <> mFlushEnd p -> mCommitEnd p = mLastFlushEnd p ->
   (flush p).1 = true /\
   mCommitEnd (flush p).2 = mFlushEnd p /\
   mLastFlushEnd (flush p).2 = mFlushEnd p) /\
  (mLastFlushEnd p <> mFlushEnd p -> mCommitEnd p <> mLastFlushEnd p ->
   (flush p).1 = false /\
   mCommitEnd (flush p).2 = mFlushEnd p /\
   mLastFlushEnd (flush p).2 = mFlushEnd p).
Proof.
  unfold flush.
  destruct (decide (mLastFlushEnd p = mFlushEnd p)) as [Heq|Hne]; simpl.
  { repeat split; done. }
  unfold Atomic.compare_exchange_strong.
  destruct (decide (mCommitEnd p = mLastFlushEnd p)) as [Hc|Hc]; simpl;
    repeat split; done.
Qed.


(** C9: when the constructor throws, [write] throws the same exception
    and leaves the pipe exactly as it was, so the back slot is still
    the one the next [write] constructs into, and every later sequence
    of calls behaves as if the failed [write] had not been made. *)
Theorem write_throw_leaves_pipe
    (p : pipe) (incomplete_ : bool) (args : Args) (e : E) (b : slot)
    (cs : list (Pipe.call Args)) :
  ChunkList.back_addr (mChunkList p) = Some b ->
  construct args = inl e ->
  write incomplete_ args p = Thrown e p /\
  run (Write args incomplete_ :: cs) p
    = match run cs p with
      | Some (es, p') => Some (WriteThrew e :: es, p')
      | None => None
      end.
Proof.
  intros Hb Hc.
  assert (Hw : write incomplete_ args p = Thrown e p).
  { unfold Pipe.write. by rewrite Hb, Hc. }
  split; [done|]. simpl. rewrite Hw. simpl.
  destruct (run cs p) as [[es p']|]; done.
Qed.

(** A [write] that stays inside the chunk, followed by [unwrite]:
    [unwrite] returns the value just written and every cursor of the
    pipe and of the chunk list is where it was before the [write]. *)
Lemma write_unwrite_within
    (p : pipe) (c : addr) (i : Z) (k : ChunkList.Chunk T) (args : Args) (v : T) :
  let l := mChunkList p in
  ChunkList.mBackChunk l = Some c -> ChunkList.mBackPos l = i ->
  ChunkList.mEndChunk l = Some c -> ChunkList.mEndPos l = i + 1 ->
  0 <= i -> i + 2 < N -> N <= UINT32_MAX ->
  ChunkList.heap l !! c = Some k ->
  (Z.to_nat i < length (ChunkList.data k))%nat ->
  construct args = inr v ->
  mFlushEnd p <> Some (c, i + 1) ->
  exists p1 p2,
    write true args p = Normal tt p1 /\
    unwrite p1 = Some (Some v, p2) /\
    ChunkList.back_addr (mChunkList p2) = Some (c, i) /\
    ChunkList.mEndChunk (mChunkList p2) = Some c /\
    ChunkList.mEndPos (mChunkList p2) = i + 1 /\
    ChunkList.front_addr (mChunkList p2) = ChunkList.front_addr l /\
    ChunkList.mAllocator (mChunkList p2) = ChunkList.mAllocator l /\
    mFlushEnd p2 = mFlushEnd p /\ mLastFlushEnd p2 = mLastFlushEnd p /\
    mReadEnd p2 = mReadEnd p /\ mCommitEnd p2 = mCommitEnd p.
Proof.
  intros l Hbc Hbp Hec Hep Hi HN HU Hk Hlen Hc Hfe. subst l.
  unfold UINT32_MAX in HU.
  assert (Hw1 : wrap 32 (i + 1 + 1) = i + 2).
  { unfold wrap. change (2 ^ 32) with 4294967296.
    rewrite Z.mod_small by lia. lia. }
  destruct (ChunkList.store (c, i) (Holds v) (mChunkList p)) as [l1|] eqn:Hs.
  2:{ unfold ChunkList.store in Hs. simpl in Hs. rewrite Hk in Hs. simpl in Hs.
      rewrite decide_True in Hs by done. done. }
  destruct (store_cursors _ _ _ _ Hs) as (Ha1 & Hg1 & Hgp1 & Hbc1 & Hbp1 & Hec1 & Hep1).
  pose proof (store_load _ _ _ _ Hs) as Hld. simpl in Hld.
  set (l2 := ChunkList.mk (ChunkList.mAllocator l1) (ChunkList.heap l1)
               (ChunkList.mBeginChunk l1) (ChunkList.mBeginPos l1)
               (Some c) (i + 1) (Some c) (i + 2)).
  assert (Hpush : ChunkList.push N S l1 = Some l2).
  { rewrite push_within by (rewrite Hep1, Hep, Hw1; lia).
    unfold l2. by rewrite Hec1, Hec, Hep1, Hep, Hw1. }
  set (l3 := ChunkList.mk (ChunkList.mAllocator l1) (ChunkList.heap l1)
               (ChunkList.mBeginChunk l1) (ChunkList.mBeginPos l1)
               (Some c) i (Some c) (i + 1)).
  assert (Hunpush : ChunkList.unpush N S l2 = Some l3).
  { rewrite unpush_within by (simpl; lia). unfold l3. simpl.
    do 2 f_equal; lia. }
  assert (Hld3 : ChunkList.load (c, i) l3 = Some v) by exact Hld.
  destruct (dtor_defined (c, i) v l3 Hld3) as (l4 & Hd & _ & _ & Hb4 & Hf4).
  exists (set_mChunkList l2 p), (set_mChunkList l4 p).
  split.
  { unfold Pipe.write, ChunkList.back_addr. rewrite Hbc, Hbp. simpl.
    rewrite Hc. unfold Pipe.ctor. rewrite Hs. simpl. rewrite Hpush. simpl. done. }
  split.
  { unfold Pipe.unwrite. simpl.
    rewrite decide_False by done.
    rewrite Hunpush. simpl. rewrite Hld3. simpl. rewrite Hd. simpl. done. }
  assert (Hcur4 : ChunkList.mAllocator l4 = ChunkList.mAllocator l3 /\
                  ChunkList.mEndChunk l4 = ChunkList.mEndChunk l3 /\
                  ChunkList.mEndPos l4 = ChunkList.mEndPos l3).
  { unfold Pipe.dtor in Hd. destruct is_fundamental.
    - by injection Hd as <-.
    - destruct (store_cursors _ _ _ _ Hd) as (? & _ & _ & _ & _ & ? & ?). done. }
  destruct Hcur4 as (Ha4 & Hec4 & Hep4).
  simpl. rewrite Hb4, Hf4, Ha4, Hec4, Hep4. simpl.
  unfold ChunkList.front_addr. simpl. rewrite Hg1, Hgp1, Ha1.
  repeat split; done.
Qed.

(** C5: [unwrite] returns false exactly when [mFlushEnd] is the
    address of the back slot, and then the pipe is unchanged.
    Otherwise it calls [unpush], assigns the object in the new back
    slot to the output, destroys that slot and returns true, leaving
    the four pipe cursors alone; this is defined whenever [unpush] is
    and the slot holds an object. *)
Theorem unwrite_cases (p : pipe) (b : slot) :
  ChunkList.back_addr (mChunkList p) = Some b ->
  (mFlushEnd p = Some b -> unwrite p = Some (None, p)) /\
  (forall r p', unwrite p = Some (r, p') -> (r = None <-> mFlushEnd p = Some b)) /\
  (mFlushEnd p <> Some b ->
   forall l1 b' v,
     ChunkList.unpush N S (mChunkList p) = Some l1 ->
     ChunkList.back_addr l1 = Some b' ->
     ChunkList.load b' l1 = Some v ->
     exists l2,
       unwrite p = Some (Some v, set_mChunkList l2 p) /\
       Pipe.dtor is_fundamental b' l1 = Some l2 /\
       (is_fundamental = false -> ChunkList.load b' l2 = None) /\
       ChunkList.back_addr l2 = Some b').
Proof.
  intros Hb. unfold Pipe.unwrite. rewrite Hb. simpl. split; [|split].
  - intros Hfe. by rewrite decide_True.
  - intros r p'. destruct (decide (mFlushEnd p = Some b)) as [Hfe|Hfe].
    + intros [= <- <-]. done.
    + destruct (ChunkList.unpush N S (mChunkList p)) as [l1|]; simpl; [|done].
      destruct (ChunkList.back_addr l1) as [b'|]; simpl; [|done].
      destruct (ChunkList.load b' l1) as [v|]; simpl; [|done].
      destruct (Pipe.dtor is_fundamental b' l1) as [l2|]; simpl; [|done].
      intros [= <- <-]. split; done.
  - intros Hfe l1 b' v Hu Hb' Hl. rewrite decide_False by done.
    rewrite Hu. simpl. rewrite Hb'. simpl. rewrite Hl. simpl.
    destruct (dtor_defined b' v l1 Hl) as (l2 & Hd & Hraw & _ & Hb2 & _).
    exists l2. rewrite Hd. simpl. repeat split; try done.
    by rewrite Hb2.
Qed.

End PipeFacts.

Lemma flush_cases_witness :
  Pipe.mChunkList (Pipe.flush tiny_pipe).2 = Pipe.mChunkList tiny_pipe /\
  Pipe.mReadEnd (Pipe.flush tiny_pipe).2 = Pipe.mReadEnd tiny_pipe /\
  Pipe.mFlushEnd (Pipe.flush tiny_pipe).2 = Pipe.mFlushEnd tiny_pipe /\
  (Pipe.mLastFlushEnd tiny_pipe = Pipe.mFlushEnd tiny_pipe ->
   Pipe.flush tiny_pipe = (true, tiny_pipe)) /\
  (Pipe.mLastFlushEnd tiny_pipe <> Pipe.mFlushEnd tiny_pipe ->
   Pipe.mCommitEnd tiny_pipe = Pipe.mLastFlushEnd tiny_pipe ->
   (Pipe.flush tiny_pipe).1 = true /\
   Pipe.mCommitEnd (Pipe.flush tiny_pipe).2 = Pipe.mFlushEnd tiny_pipe /\
   Pipe.mLastFlushEnd (Pipe.flush tiny_pipe).2 = Pipe.mFlushEnd tiny_pipe) /\
  (Pipe.mLastFlushEnd tiny_pipe <> Pipe.mFlushEnd tiny_pipe ->
   Pipe.mCommitEnd tiny_pipe <> Pipe.mLastFlushEnd tiny_pipe ->
   (Pipe.flush tiny_pipe).1 = false /\
   Pipe.mCommitEnd (Pipe.flush tiny_pipe).2 = Pipe.mFlushEnd tiny_pipe /\
   Pipe.mLastFlushEnd (Pipe.flush tiny_pipe).2 = Pipe.mFlushEnd tiny_pipe).
Proof. apply (flush_cases tiny_pipe). Defined.


Lemma write_throw_leaves_pipe_witness :
  Pipe.write 2 1 picky false (-1) tiny_pipe = Thrown tt tiny_pipe /\
  Pipe.run 2 1 picky false [Pipe.Write (-1) false; Pipe.Write 11 false; Pipe.Flush] tiny_pipe
    = match Pipe.run 2 1 picky false [Pipe.Write 11 false; Pipe.Flush] tiny_pipe with
      | Some (es, p') => Some (Pipe.WriteThrew tt :: es, p')
      | None => None
      end.
Proof.
  apply (write_throw_leaves_pipe 2 1 picky false tiny_pipe false (-1) tt (1%positive, 1));
    reflexivity.
Defined.

(** The first [write] on the fresh demonstration pipe can be taken
    back: the hypotheses of [write_unwrite_within] hold there. *)
Lemma write_unwrite_on_fresh_pipe :
  exists p1 p2,
    Pipe.write Demo.N Demo.S Demo.construct true 5 fresh_pipe = Normal tt p1 /\
    Pipe.unwrite Demo.N Demo.S true p1 = Some (Some 5, p2) /\
    ChunkList.back_addr (Pipe.mChunkList p2) = Some (1%positive, 0).
Proof.
  assert (Hk : ChunkList.heap (Pipe.mChunkList fresh_pipe) !! 1%positive
               = Some (ChunkList.mkChunk (replicate 128 Raw) Raw Raw)).
  { vm_compute. reflexivity. }
  assert (Hfe : Pipe.mFlushEnd fresh_pipe <> Some (1%positive, 0 + 1)).
  { intros Heq. vm_compute in Heq. discriminate Heq. }
  assert (Hlen : (Z.to_nat 0 < length (ChunkList.data
                    (ChunkList.mkChunk (T:=Z) (replicate 128 Raw) Raw Raw)))%nat).
  { vm_compute. lia. }
  destruct (write_unwrite_within Demo.N Demo.S Demo.construct true fresh_pipe
              1%positive 0 _ 5 5
              eq_refl eq_refl eq_refl eq_refl
              ltac:(lia) ltac:(unfold Demo.N; lia)
              ltac:(unfold Demo.N, UINT32_MAX; lia)
              Hk Hlen eq_refl Hfe)
    as (p1 & p2 & Hw & Hu & Hb & _).
  exists p1, p2. done.
Qed.

Lemma unwrite_cases_witness :
  exists l2,
    Pipe.unwrite 2 1 true tiny_pipe_pending
      = Some (Some 11, Pipe.set_mChunkList l2 tiny_pipe_pending) /\
    Pipe.dtor true (1%positive, 1) tiny_list_unpushed = Some l2 /\
    (true = false -> ChunkList.load (1%positive, 1) l2 = None) /\
    ChunkList.back_addr l2 = Some (1%positive, 1).
Proof.
  apply (proj2 (proj2 (unwrite_cases 2 1 true tiny_pipe_pending (2%positive, 0) eq_refl))).
  - intros Heq. vm_compute in Heq. discriminate Heq.
  - reflexivity.
  - reflexivity.
  - reflexivity.
Defined.

(** ** Sleep signalling *)

Section SleepSignalling.
Context {sys : Type} `{SystemAllocator sys} {T Args E : Type}.
Variables N S : Z.
Variable construct : Args -> E + T.
Variable is_fundamental : bool.
Import Pipe.

Local Abbreviation pipe := (Pipe.t sys T).
Local Abbreviation step := (Pipe.step N S construct is_fundamental).
Local Abbreviation run := (Pipe.run N S construct is_fundamental).

Lemma create_published (a : sys) (p : pipe) :
  Pipe.create N S a = Some p -> published p.
Proof.
  unfold Pipe.create.
  destruct (ChunkList.create N S a) as [l0|]; simpl; [|done].
  destruct (ChunkList.push N S l0) as [l|]; simpl; [|done].
  destruct (ChunkList.back_addr l) as [b|]; simpl; [|done].
  intros [= <-]. split; done.
Qed.

Lemma write_cursors (i : bool) (args : Args) (p p' : pipe) (u : unit) :
  Pipe.write N S construct i args p = Normal u p' ->
  mCommitEnd p' = mCommitEnd p /\ mLastFlushEnd p' = mLastFlushEnd p /\
  mReadEnd p' = mReadEnd p /\
  (mFlushEnd p' = mFlushEnd p \/ mFlushEnd p' <> None).
Proof.
  unfold Pipe.write.
  destruct (ChunkList.back_addr (mChunkList p)) as [b|]; [|done].
  destruct (construct args) as [e|v]; [done|].
  destruct (Pipe.ctor b v (mChunkList p)) as [l1|]; simpl; [|done].
  destruct (ChunkList.push N S l1) as [l2|]; simpl; [|done].
  destruct (ChunkList.back_addr l2) as [b'|]; simpl; [|done].
  destruct i; intros [= _ <-]; simpl; split_and!; try done; try (by left); by right.
Qed.

Lemma write_thrown (i : bool) (args : Args) (p p' : pipe) (e : E) :
  Pipe.write N S construct i args p = Thrown e p' -> p' = p.
Proof.
  unfold Pipe.write.
  destruct (ChunkList.back_addr (mChunkList p)) as [b|]; [|done].
  destruct (construct args) as [e'|v]; [by intros [= _ <-]|].
  destruct (_ ≫= _); done.
Qed.

Lemma unwrite_cursors (p p' : pipe) (r : option T) :
  Pipe.unwrite N S is_fundamental p = Some (r, p') ->
  mCommitEnd p' = mCommitEnd p /\ mLastFlushEnd p' = mLastFlushEnd p /\
  mReadEnd p' = mReadEnd p /\ mFlushEnd p' = mFlushEnd p.
Proof.
  unfold Pipe.unwrite.
  destruct (ChunkList.back_addr (mChunkList p)) as [b|]; simpl; [|done].
  destruct (decide _); [by intros [= _ <-]|].
  destruct (ChunkList.unpush N S (mChunkList p)) as [l1|]; simpl; [|done].
  destruct (ChunkList.back_addr l1) as [b'|]; simpl; [|done].
  destruct (ChunkList.load b' l1) as [v|]; simpl; [|done].
  destruct (Pipe.dtor is_fundamental b' l1) as [l2|]; simpl; [|done].
  by intros [= _ <-].
Qed.

(** [check_read] leaves the producer's cursors alone; [mCommitEnd]
    keeps its value or becomes null, and it is null after a false
    result. *)
Lemma check_read_cursors (p p' : pipe) (r : bool) :
  Pipe.check_read p = Some (r, p') ->
  mLastFlushEnd p' = mLastFlushEnd p /\ mFlushEnd p' = mFlushEnd p /\
  mChunkList p' = mChunkList p /\
  (mCommitEnd p' = mCommitEnd p \/ mCommitEnd p' = None) /\
  (r = false -> mCommitEnd p' = None).
Proof.
  unfold Pipe.check_read.
  destruct (ChunkList.front_addr (mChunkList p)) as [f|]; simpl; [|done].
  destruct (decide _).
  { intros [= <- <-]. repeat split; auto. done. }
  unfold Atomic.compare_exchange_strong.
  destruct (decide (mCommitEnd p = mReadEnd p)); intros [= <- <-]; simpl;
    repeat split; auto; done.
Qed.

Lemma read_cursors (p p' : pipe) (r : option T) :
  Pipe.read N S is_fundamental p = Some (r, p') ->
  mLastFlushEnd p' = mLastFlushEnd p /\ mFlushEnd p' = mFlushEnd p /\
  (mCommitEnd p' = mCommitEnd p \/ mCommitEnd p' = None) /\
  (r = None -> mCommitEnd p' = None).
Proof.
  unfold Pipe.read.
  destruct (Pipe.check_read p) as [[ok p1]|] eqn:Hc; simpl; [|done].
  destruct (check_read_cursors _ _ _ Hc) as (Hl & Hf & _ & Hce & Hfalse).
  destruct ok.
  - destruct (ChunkList.front_addr (mChunkList p1)) as [f|]; simpl; [|done].
    destruct (ChunkList.load f (mChunkList p1)) as [v|]; simpl; [|done].
    destruct (Pipe.dtor is_fundamental f (mChunkList p1)) as [l1|]; simpl; [|done].
    destruct (ChunkList.pop N S l1) as [l2|]; simpl; [|done].
    intros [= <- <-]. simpl. repeat split; auto. done.
  - intros [= <- <-]. repeat split; auto.
Qed.

(** [flush] leaves [mFlushEnd] alone and moves [mLastFlushEnd] to it
    or not at all; with nothing to publish it changes nothing; with
    something to publish and a null [mCommitEnd] it returns false. *)
Lemma flush_cursors (p p' : pipe) (r : bool) :
  flush p = (r, p') ->
  mFlushEnd p' = mFlushEnd p /\
  (mLastFlushEnd p' = mLastFlushEnd p \/ mLastFlushEnd p' = mFlushEnd p) /\
  (mLastFlushEnd p = mFlushEnd p -> p' = p) /\
  (mLastFlushEnd p <> mFlushEnd p -> mLastFlushEnd p <> None ->
   mCommitEnd p = None -> r = false).
Proof.
  unfold flush.
  destruct (decide (mLastFlushEnd p = mFlushEnd p)) as [Heq|Hne].
  { intros [= <- <-]. split_and!; auto. done. }
  unfold Atomic.compare_exchange_strong.
  destruct (decide (mCommitEnd p = mLastFlushEnd p)) as [Hc|Hc];
    intros [= <- <-]; simpl; split_and!; auto; try done.
  intros _ Hl Hnull. congruence.
Qed.

Lemma step_published (c : Pipe.call Args) (p p' : pipe) (e : Pipe.event T E) :
  published p -> step c p = Some (e, p') -> published p'.
Proof.
  intros [Hl Hf]. unfold published. destruct c as [args i| | | |]; simpl.
  - destruct (Pipe.write N S construct i args p) as [u p1|e1 p1|] eqn:Hw; [| |done].
    + intros [= _ <-]. destruct (write_cursors _ _ _ _ _ Hw) as (_ & -> & _ & [-> | ?]); done.
    + intros [= _ <-]. by rewrite (write_thrown _ _ _ _ _ Hw).
  - destruct (Pipe.unwrite N S is_fundamental p) as [[r p1]|] eqn:Hu; simpl; [|done].
    intros [= _ <-]. destruct (unwrite_cursors _ _ _ Hu) as (_ & -> & _ & ->). done.
  - destruct (flush p) as [r p1] eqn:Hfl. intros [= _ <-].
    destruct (flush_cursors _ _ _ Hfl) as (-> & [-> | ->] & _); done.
  - destruct (Pipe.check_read p) as [[r p1]|] eqn:Hc; simpl; [|done].
    intros [= _ <-]. destruct (check_read_cursors _ _ _ Hc) as (-> & -> & _). done.
  - destruct (Pipe.read N S is_fundamental p) as [[r p1]|] eqn:Hr; simpl; [|done].
    intros [= _ <-]. destruct (read_cursors _ _ _ Hr) as (-> & -> & _). done.
Qed.

(** An event at which the consumer went to sleep leaves [mCommitEnd]
    null. *)
Lemma step_slept (c : Pipe.call Args) (p p' : pipe) (e : Pipe.event T E) :
  step c p = Some (e, p') -> slept e = true -> mCommitEnd p' = None.
Proof.
  destruct c as [args i| | | |]; simpl.
  - destruct (Pipe.write N S construct i args p); [| |done]; by intros [= <- _].
  - destruct (Pipe.unwrite N S is_fundamental p) as [[r p1]|]; simpl; [|done].
    by intros [= <- _].
  - destruct (flush p). by intros [= <- _].
  - destruct (Pipe.check_read p) as [[r p1]|] eqn:Hc; simpl; [|done].
    intros [= <- <-]. destruct r; [done|]. intros _.
    by apply (check_read_cursors _ _ _ Hc).
  - destruct (Pipe.read N S is_fundamental p) as [[r p1]|] eqn:Hr; simpl; [|done].
    intros [= <- <-]. destruct r; [done|]. intros _.
    by apply (read_cursors _ _ _ Hr).
Qed.

(** While [mCommitEnd] is null, a [flush] with something to publish
    returns false, and every other call leaves [mCommitEnd] null. *)
Lemma step_asleep (c : Pipe.call Args) (p p' : pipe) (e : Pipe.event T E) :
  published p -> mCommitEnd p = None ->
  step c p = Some (e, p') ->
  (advancing_flush e = false -> mCommitEnd p' = None) /\
  (forall r, e = Flushed true r -> r = false).
Proof.
  intros [Hl Hf] Hnull. destruct c as [args i| | | |]; simpl.
  - destruct (Pipe.write N S construct i args p) as [u p1|e1 p1|] eqn:Hw; [| |done].
    + intros [= <- <-]. split; [|done]. intros _.
      destruct (write_cursors _ _ _ _ _ Hw) as (-> & _). done.
    + intros [= <- <-]. split; [|done]. intros _.
      by rewrite (write_thrown _ _ _ _ _ Hw).
  - destruct (Pipe.unwrite N S is_fundamental p) as [[r p1]|] eqn:Hu; simpl; [|done].
    intros [= <- <-]. split; [|done]. intros _.
    destruct (unwrite_cursors _ _ _ Hu) as (-> & _). done.
  - destruct (flush p) as [r p1] eqn:Hfl. intros [= <- <-].
    destruct (flush_cursors _ _ _ Hfl) as (_ & _ & Hsame & Hfalse).
    destruct (decide (mLastFlushEnd p = mFlushEnd p)) as [Heq|Hne].
    + rewrite bool_decide_eq_false_2 by (intros Hc; by apply Hc). simpl.
      rewrite (Hsame Heq). split; done.
    + rewrite bool_decide_eq_true_2 by done. simpl. split; [done|].
      intros r' [= <-]. by apply Hfalse.
  - destruct (Pipe.check_read p) as [[r p1]|] eqn:Hc; simpl; [|done].
    intros [= <- <-]. split; [|done]. intros _.
    destruct (check_read_cursors _ _ _ Hc) as (_ & _ & _ & [-> | ->] & _); done.
  - destruct (Pipe.read N S is_fundamental p) as [[r p1]|] eqn:Hr; simpl; [|done].
    intros [= <- <-]. split; [|done]. intros _.
    destruct (read_cursors _ _ _ Hr) as (_ & _ & [-> | ->] & _); done.
Qed.

Lemma run_cons_inv (cs : list (Pipe.call Args)) (p p' : pipe)
    (e : Pipe.event T E) (es : list (Pipe.event T E)) :
  run cs p = Some (e :: es, p') ->
  exists c cs' p1,
    cs = c :: cs' /\ step c p = Some (e, p1) /\ run cs' p1 = Some (es, p').
Proof.
  destruct cs as [|c cs']; simpl; [done|].
  destruct (step c p) as [[e1 p1]|] eqn:Hs; simpl; [|done].
  destruct (run cs' p1) as [[es1 p2]|] eqn:Hr; simpl; [|done].
  intros [= <- <- <-]. exists c, cs', p1. by rewrite Hr.
Qed.

Lemma run_asleep (mid : list (Pipe.event T E)) :
  forall (cs : list (Pipe.call Args)) (p p' : pipe) r post,
    published p -> mCommitEnd p = None ->
    run cs p = Some (mid ++ Flushed true r :: post, p') ->
    forallb (fun x => negb (advancing_flush x)) mid = true ->
    r = false.
Proof.
  induction mid as [|e mid IH]; intros cs p p' r post Hpub Hnull Hrun Hmid.
  - apply run_cons_inv in Hrun as (c & cs' & p1 & -> & Hs & _).
    by apply (step_asleep _ _ _ _ Hpub Hnull Hs).
  - simpl in Hrun, Hmid. apply andb_prop in Hmid as [He Hmid].
    apply run_cons_inv in Hrun as (c & cs' & p1 & -> & Hs & Hrun).
    apply (IH cs' p1 p' r post); try done.
    + by eapply step_published.
    + apply (step_asleep _ _ _ _ Hpub Hnull Hs). by apply negb_true_iff.
Qed.

Lemma run_sleep_then_flush_false (pre : list (Pipe.event T E)) :
  forall (cs : list (Pipe.call Args)) (p p' : pipe) e mid r post,
    published p ->
    run cs p = Some (pre ++ e :: mid ++ Flushed true r :: post, p') ->
    slept e = true ->
    forallb (fun x => negb (advancing_flush x)) mid = true ->
    r = false.
Proof.
  induction pre as [|e0 pre IH]; intros cs p p' e mid r post Hpub Hrun He Hmid.
  - apply run_cons_inv in Hrun as (c & cs' & p1 & -> & Hs & Hrun).
    apply (run_asleep mid cs' p1 p' r post); try done.
    + by eapply step_published.
    + by eapply step_slept.
  - simpl in Hrun.
    apply run_cons_inv in Hrun as (c & cs' & p1 & -> & Hs & Hrun).
    apply (IH cs' p1 p' e mid r post); try done. by eapply step_published.
Qed.

End SleepSignalling.

Section SleepSignallingTheorem.
Context {sys : Type} `{SystemAllocator sys} {T Args E : Type}.
Variables N S : Z.
Variable construct : Args -> E + T.
Variable is_fundamental : bool.

(** C3 (amended): in every run of interleaved calls on a freshly
    constructed pipe, once [read] or [check_read] has returned false
    the next [flush] that has something to publish returns false; and
    a [flush] that has something to publish and returns true is
    preceded by no false [read] or [check_read] since the previous
    such [flush].  (A [flush] with nothing to publish returns true
    whatever the consumer did.) *)
Theorem sleep_signalling
    (a : sys) (p0 p : Pipe.t sys T) (cs : list (Pipe.call Args))
    (es : list (Pipe.event T E)) :
  Pipe.create N S a = Some p0 ->
  Pipe.run N S construct is_fundamental cs p0 = Some (es, p) ->
  Pipe.sleep_then_flush_false es /\ Pipe.advancing_flush_true_no_sleep es.
Proof.
  intros Hc Hrun. apply create_published in Hc.
  assert (H1 : Pipe.sleep_then_flush_false es).
  { intros pre e mid r post -> He Hmid.
    by eapply (run_sleep_then_flush_false N S construct is_fundamental pre). }
  split; [done|].
  intros pre mid post -> Hmid.
  apply forallb_forall. intros x Hx.
  destruct (Pipe.slept x) eqn:Hsl; [|done]. exfalso.
  apply in_split in Hx as (m1 & m2 & ->).
  rewrite forallb_app in Hmid. apply andb_prop in Hmid as [_ Hm2].
  simpl in Hm2. apply andb_prop in Hm2 as [_ Hm2].
  assert (Htf : true = false); [|done].
  apply (H1 (pre ++ m1) x m2 true post); try done.
  by rewrite <- !app_assoc.
Qed.

End SleepSignallingTheorem.

(** C3, counterexample: after write, flush, read, read (which finds
    the pipe empty), a second [flush] with nothing new returns true
    although the consumer went to sleep since the last [flush]. *)
Lemma sleep_signalling_stated_fails : ~ sleep_signalling_stated.
Proof.
  intros Hst.
  assert (Hrun : exists p0 p,
    Demo.fresh = Some p0 /\
    Demo.run idle_flush_run p0
      = Some ([Pipe.Wrote; Pipe.Flushed true true; Pipe.ReadGave (Some 7);
               Pipe.ReadGave None; Pipe.Flushed false true], p)).
  { eexists _, _. split; [vm_compute; reflexivity|]. vm_compute. reflexivity. }
  destruct Hrun as (p0 & p & Hf & Hr).
  destruct (Hst _ _ _ _ Hf Hr) as [_ H2].
  specialize (H2 [Pipe.Wrote; Pipe.Flushed true true]
                 [Pipe.ReadGave (Some 7); Pipe.ReadGave None] false []
                 eq_refl eq_refl).
  discriminate H2.
Qed.

Lemma sleep_signalling_witness :
  Pipe.sleep_then_flush_false wake_events /\
  Pipe.advancing_flush_true_no_sleep wake_events.
Proof.
  apply (sleep_signalling Demo.N Demo.S Demo.construct true
           (Demo.system 64) fresh_pipe wake_end wake_run wake_events).
  - vm_compute. reflexivity.
  - vm_compute. reflexivity.
Defined.

(** ** The demonstration program *)

Lemma fresh_pipe_is_fresh : Demo.fresh = Some fresh_pipe.
Proof. vm_compute. reflexivity. Qed.

(** [main] itself, which never reads before the flush, does what is
    expected of it. *)
Lemma main_run_events :
  fst <$> Demo.run Demo.main fresh_pipe = Some main_events.
Proof. vm_compute. reflexivity. Qed.

(** One [read] at any single point of the writes and unwrites returns
    false. *)
Lemma single_read_false_before_flush :
  read_false_at_every_point (Demo.writes ++ Demo.unwrites) fresh_pipe = true.
Proof. vm_compute. reflexivity. Qed.

(** A [read] that follows a false [read] with no [flush] in between
    returns true: [check_read] takes the null it finds in
    [mCommitEnd] for a new frontier. *)
Lemma read_after_false_read :
  fst <$> Demo.run [Pipe.Write 0 true; Pipe.Read; Pipe.Read] fresh_pipe
  = Some [Pipe.Wrote; Pipe.ReadGave None; Pipe.ReadGave (Some 0)].
Proof. vm_compute. reflexivity. Qed.

(** C4, the code at the failing input: after the 1024 incomplete
    writes, with a [read] after each of the first two unwrites, the
    first [read] returns false and the second returns true and
    delivers 0, which was never flushed. *)
Theorem second_read_delivers_unflushed :
  fst <$> Demo.run unwrites_with_reads fresh_pipe
  = Some (replicate 1024 Pipe.Wrote
          ++ [Pipe.Unwrote (Some 1023); Pipe.ReadGave None;
              Pipe.Unwrote (Some 1022); Pipe.ReadGave (Some 0)]).
Proof. vm_compute. reflexivity. Qed.

(** * Further properties *)

(** Make the bounds that mention [UINT32_MAX] numerals, for [lia]. *)
Ltac norm_bound :=
  unfold UINT32_MAX in *;
  change ((2 ^ 32 - 1) / 2) with 2147483647 in *;
  change (2 ^ 32 - 1) with 4294967295 in *.

(** ** The cache of the primary template is a queue *)

Section RingQueue.
Context {sys : Type} `{SystemAllocator sys}.
Import MemoryAllocator.

Lemma index_bits_small (S : Z) : 1 < S <= UINT32_MAX / 2 -> index_bits S = 32.
Proof.
  intros HS. unfold UINT32_MAX in HS.
  change ((2 ^ 32 - 1) / 2) with 2147483647 in HS.
  unfold index_bits, UINT32_MAX. change ((2 ^ 32 - 1) / 2) with 2147483647.
  destruct (Z.gtb_spec S 2147483647); [lia | done].
Qed.

Lemma physical_mod (S i : Z) :
  1 < S <= UINT32_MAX / 2 -> 0 <= i < 2 * S -> physical S i = i mod S.
Proof.
  intros HS Hi.
  destruct (ring_arithmetic_small S i HS Hi) as (_ & _ & Hb & [Hp | Hp]).
  - rewrite Hp in *. symmetry. apply Z.mod_small. lia.
  - rewrite Hp in *. apply (Z.mod_unique i S 1); lia.
Qed.

(** Two virtual indices less than [S] apart have different physical
    slots. *)
Lemma physical_apart (S i m : Z) :
  1 < S <= UINT32_MAX / 2 -> 0 <= i < 2 * S -> 0 < m < S ->
  physical S i <> physical S ((i + m) mod (2 * S)).
Proof.
  intros HS Hi Hm.
  rewrite (physical_mod S i) by done.
  rewrite physical_mod by (try done; apply Z.mod_pos_bound; lia).
  rewrite Z.mod_mod_divide by (exists 2; lia).
  intros Heq. symmetry in Heq. apply Z.cong_iff_0 in Heq.
  replace (i + m - i) with m in Heq by lia.
  rewrite Z.mod_small in Heq by lia. lia.
Qed.

(** Writing behind the last cached block appends to the queue. *)
Lemma ring_from_append (S : Z) (q : list ptr) (p : ptr) (n : nat) :
  forall i,
    1 < S <= UINT32_MAX / 2 -> length q = Z.to_nat S ->
    0 <= i < 2 * S -> Z.of_nat n < S ->
    ring_from S (<[Z.to_nat (physical S ((i + Z.of_nat n) mod (2 * S))) := p]> q)
              i (Datatypes.S n)
    = ring_from S q i n ++ [p].
Proof.
  induction n as [|n IH]; intros i HS Hlen Hi Hn.
  - destruct (ring_arithmetic_small S i HS Hi) as (_ & _ & Hb & _).
    norm_bound. simpl. rewrite Z.add_0_r, Z.mod_small by lia.
    assert (Hlt : (Z.to_nat (physical S i) < length q)%nat) by lia.
    by rewrite list_lookup_insert_eq.
  - change (ring_from S ?q' i (Datatypes.S (Datatypes.S n)))
      with (default None (q' !! Z.to_nat (physical S i))
            :: ring_from S q' ((i + 1) mod (2 * S)) (Datatypes.S n)).
    change (ring_from S q i (Datatypes.S n))
      with (default None (q !! Z.to_nat (physical S i))
            :: ring_from S q ((i + 1) mod (2 * S)) n).
    assert (Hnext : 0 <= (i + 1) mod (2 * S) < 2 * S)
      by (apply Z.mod_pos_bound; lia).
    assert (Hlast : 0 <= (i + Z.of_nat (Datatypes.S n)) mod (2 * S) < 2 * S)
      by (apply Z.mod_pos_bound; lia).
    assert (Hsame : (i + Z.of_nat (Datatypes.S n)) mod (2 * S)
                    = ((i + 1) mod (2 * S) + Z.of_nat n) mod (2 * S)).
    { rewrite Zplus_mod_idemp_l. f_equal. lia. }
    assert (Hne : Z.to_nat (physical S ((i + Z.of_nat (Datatypes.S n)) mod (2 * S)))
                  <> Z.to_nat (physical S i)).
    { pose proof (physical_apart S i (Z.of_nat (Datatypes.S n)) HS Hi
                    ltac:(lia)) as Hap.
      destruct (ring_arithmetic_small S i HS Hi) as (_ & _ & Hb & _).
      destruct (ring_arithmetic_small S _ HS Hlast) as (_ & _ & Hb' & _).
      intros Heq. apply Z2Nat.inj in Heq; [congruence | lia | lia]. }
    rewrite list_lookup_insert_ne by done.
    rewrite Hsame, IH by (try done; lia). done.
Qed.

Lemma ring_count_bounds (S : Z) (r : Ring sys) :
  1 < S -> 0 <= ring_count S r < 2 * S.
Proof. intros HS. unfold ring_count. apply Z.mod_pos_bound. lia. Qed.

(** With [S] blocks cached the fullness test answers true. *)
Lemma ring_count_full (S : Z) (r : Ring sys) :
  ring_ok S r -> ring_count S r = S ->
  is_full S (mHead r) (mTail r) = true.
Proof.
  intros (HS & _ & Hh & Ht) Hc. pose proof HS as HS'.
  unfold UINT32_MAX in HS'. change ((2 ^ 32 - 1) / 2) with 2147483647 in HS'.
  unfold ring_count in Hc.
  pose proof (Z.div_mod (mTail r - mHead r) (2 * S) ltac:(lia)) as Hdm.
  rewrite Hc in Hdm.
  unfold is_full. rewrite index_bits_small by done.
  unfold wrap. change (2 ^ 32) with 4294967296.
  apply orb_true_iff.
  assert (Hq : (mTail r - mHead r) / (2 * S) = 0 \/
               (mTail r - mHead r) / (2 * S) = -1) by nia.
  destruct Hq as [Hq | Hq]; rewrite Hq in Hdm.
  - left. apply Z.eqb_eq. rewrite Z.mod_small by lia. lia.
  - right. apply Z.eqb_eq. rewrite Z.mod_small by lia. lia.
Qed.

Lemma ring_tail_from_head (S : Z) (r : Ring sys) :
  ring_ok S r -> (mHead r + ring_count S r) mod (2 * S) = mTail r.
Proof.
  intros (HS & _ & Hh & Ht). norm_bound. unfold ring_count.
  rewrite Zplus_mod_idemp_r.
  replace (mHead r + (mTail r - mHead r)) with (mTail r) by lia.
  apply Z.mod_small. lia.
Qed.

(** X1: [free] of a non-null block on a ring that the fullness test
    does not report full appends the block to the queue of cached
    blocks and leaves the system allocator alone; on a ring reported
    full it hands the block to the system allocator and leaves the
    ring alone.  A ring holding [S] blocks is always reported full,
    and while [3 * S] fits in 32 bits no other ring is. *)
Theorem ring_free_queue (S : Z) (a : addr) (r : Ring sys) :
  ring_inv S r ->
  (is_full S (mHead r) (mTail r) = false ->
   exists r',
     freeS S (Some a) r = Some r' /\ ring_inv S r' /\
     ring_contents S r' = ring_contents S r ++ [Some a] /\
     mAllocator r' = mAllocator r) /\
  (is_full S (mHead r) (mTail r) = true ->
   freeS S (Some a) r
     = Some (set_mAllocator (operator_delete (Some a) (mAllocator r)) r)) /\
  (ring_count S r = S -> is_full S (mHead r) (mTail r) = true) /\
  (3 * S <= 2 ^ 32 -> ring_count S r < S ->
   is_full S (mHead r) (mTail r) = false).
Proof.
  intros [Hok Hle]. pose proof Hok as (HS & Hlen & Hh & Ht).
  pose proof (ring_count_bounds S r ltac:(lia)) as Hcb.
  split; [|split; [|split]].
  - intros Hnf.
    assert (Hlt : ring_count S r < S).
    { destruct (decide (ring_count S r = S)) as [Heq|Hne]; [|lia].
      rewrite (ring_count_full S r Hok Heq) in Hnf. done. }
    destruct (ring_arithmetic_small S (mTail r) HS Ht) as (_ & Hn & Hp & _).
    assert (Hm : 0 <= (mTail r + 1) mod (2 * S) < 2 * S)
      by (apply Z.mod_pos_bound; lia).
    assert (Hpl : (Z.to_nat (physical S (mTail r)) < length (mQueueBuffer r))%nat).
    { norm_bound. lia. }
    unfold freeS, freeS_fuel. simpl. rewrite Hnf, Hn. simpl.
    rewrite compare_exchange_same. rewrite decide_True by done.
    eexists. split; [reflexivity|].
    match goal with |- ring_inv S ?x /\ _ => set (r' := x) end.
    assert (Hc' : ring_count S r' = ring_count S r + 1).
    { unfold ring_count. simpl. rewrite Zminus_mod_idemp_l.
      replace (mTail r + 1 - mHead r) with ((mTail r - mHead r) + 1) by lia.
      rewrite <- Zplus_mod_idemp_l. apply Z.mod_small.
      unfold ring_count in *. lia. }
    split; [|split; [|done]].
    + unfold ring_inv. rewrite Hc'. split; [|lia].
      repeat split; simpl; try done; try lia. by rewrite length_insert.
    + unfold ring_contents. rewrite Hc'. simpl.
      replace (Z.to_nat (ring_count S r + 1))
        with (Datatypes.S (Z.to_nat (ring_count S r))) by lia.
      pose proof (ring_from_append S (mQueueBuffer r) (Some a)
                    (Z.to_nat (ring_count S r)) (mHead r) HS Hlen Hh
                    ltac:(lia)) as Happ.
      rewrite Z2Nat.id, (ring_tail_from_head S r Hok) in Happ by lia.
      exact Happ.
  - intros Hf. unfold freeS, freeS_fuel. simpl. by rewrite Hf.
  - by apply ring_count_full.
  - intros H3 Hlt.
    destruct (is_full S (mHead r) (mTail r)) eqn:Hf; [|done]. exfalso.
    apply (is_full_exact_small S (mHead r) (mTail r)) in Hf; try done; try lia.
    unfold ring_count in Hlt.
    destruct Hf as [Hf | Hf].
    + replace (mTail r - mHead r) with S in Hlt by lia.
      rewrite Z.mod_small in Hlt by lia. lia.
    + replace (mTail r - mHead r) with (- S) in Hlt by lia.
      rewrite <- (Z.mod_unique (- S) (2 * S) (-1) S) in Hlt; lia.
Qed.

(** X2: [alloc] on a ring with no cached block asks the system
    allocator and leaves the ring alone; on a ring whose oldest cached
    block is [a] it returns [a], removes it from the queue and leaves
    the system allocator alone. *)
Theorem ring_alloc_queue (S : Z) (r : Ring sys) :
  ring_inv S r ->
  (ring_contents S r = [] ->
   allocS S r
     = Some ((operator_new (mAllocator r)).1,
             set_mAllocator (operator_new (mAllocator r)).2 r)) /\
  (forall a rest,
     ring_contents S r = Some a :: rest ->
     exists r',
       allocS S r = Some (Some a, r') /\ ring_inv S r' /\
       ring_contents S r' = rest /\ mAllocator r' = mAllocator r).
Proof.
  intros [Hok Hle]. pose proof Hok as (HS & Hlen & Hh & Ht).
  pose proof (ring_count_bounds S r ltac:(lia)) as Hcb.
  pose proof (ring_tail_from_head S r Hok) as Htl.
  split.
  - intros Hc. unfold ring_contents in Hc.
    assert (Hz : ring_count S r = 0).
    { destruct (Z.to_nat (ring_count S r)) eqn:Hn; [lia | done]. }
    rewrite Hz, Z.add_0_r, Z.mod_small in Htl by lia.
    unfold allocS, allocS_fuel. simpl. rewrite Htl, Z.eqb_refl. simpl.
    unfold alloc0. by destruct (operator_new (mAllocator r)).
  - intros a rest Hc. unfold ring_contents in Hc.
    destruct (Z.to_nat (ring_count S r)) as [|n] eqn:Hn; [done|].
    simpl in Hc. injection Hc as Hhd Hrest.
    assert (Hne : mHead r <> mTail r).
    { intros Heq. unfold ring_count in Hn. rewrite Heq, Z.sub_diag in Hn.
      rewrite Z.mod_0_l in Hn by lia. done. }
    destruct (ring_arithmetic_small S (mHead r) HS Hh) as (_ & Hnx & Hp & _).
    assert (Hm : 0 <= (mHead r + 1) mod (2 * S) < 2 * S)
      by (apply Z.mod_pos_bound; lia).
    assert (Hq : mQueueBuffer r !! Z.to_nat (physical S (mHead r))
                 = Some (Some a : ptr)).
    { destruct (mQueueBuffer r !! Z.to_nat (physical S (mHead r))) as [x|];
        simpl in Hhd; [by subst x | done]. }
    unfold allocS, allocS_fuel. simpl.
    destruct (Z.eqb_spec (mHead r) (mTail r)) as [|_]; [done|].
    rewrite Hnx. simpl. rewrite Hq. simpl. rewrite compare_exchange_same. simpl.
    eexists. split; [reflexivity|].
    match goal with |- ring_inv S ?x /\ _ => set (r' := x) end.
    assert (Hc' : ring_count S r' = ring_count S r - 1).
    { unfold ring_count. simpl. rewrite Zminus_mod_idemp_r.
      replace (mTail r - (mHead r + 1)) with ((mTail r - mHead r) - 1) by lia.
      rewrite <- Zminus_mod_idemp_l. apply Z.mod_small.
      unfold ring_count in *. lia. }
    split; [|split; [|done]].
    + unfold ring_inv. rewrite Hc'. split; [|lia].
      repeat split; simpl; try done; lia.
    + unfold ring_contents. rewrite Hc'. simpl.
      replace (Z.to_nat (ring_count S r - 1)) with n by lia. done.
Qed.

End RingQueue.

Lemma ring_free_queue_witness :
  (MemoryAllocator.is_full 2 0 1 = false ->
   exists r',
     MemoryAllocator.freeS 2 (Some 5%positive) ring_holding_3 = Some r' /\
     MemoryAllocator.ring_inv 2 r' /\
     MemoryAllocator.ring_contents 2 r'
       = MemoryAllocator.ring_contents 2 ring_holding_3 ++ [Some 5%positive] /\
     MemoryAllocator.mAllocator r' = mkBump 8%positive 4 []) /\
  (MemoryAllocator.is_full 2 0 1 = true ->
   MemoryAllocator.freeS 2 (Some 5%positive) ring_holding_3
     = Some (MemoryAllocator.set_mAllocator
               (operator_delete (Some 5%positive) (mkBump 8%positive 4 []))
               ring_holding_3)) /\
  (MemoryAllocator.ring_count 2 ring_holding_3 = 2 ->
   MemoryAllocator.is_full 2 0 1 = true) /\
  (3 * 2 <= 2 ^ 32 -> MemoryAllocator.ring_count 2 ring_holding_3 < 2 ->
   MemoryAllocator.is_full 2 0 1 = false).
Proof.
  apply (ring_free_queue 2 5%positive ring_holding_3).
  unfold MemoryAllocator.ring_inv, MemoryAllocator.ring_ok. vm_compute.
  repeat split; congruence.
Defined.

Lemma ring_alloc_queue_witness :
  (MemoryAllocator.ring_contents 2 ring_holding_3 = [] ->
   MemoryAllocator.allocS 2 ring_holding_3
     = Some ((operator_new (mkBump 8%positive 4 [])).1,
             MemoryAllocator.set_mAllocator
               (operator_new (mkBump 8%positive 4 [])).2 ring_holding_3)) /\
  (forall a rest,
     MemoryAllocator.ring_contents 2 ring_holding_3 = Some a :: rest ->
     exists r',
       MemoryAllocator.allocS 2 ring_holding_3 = Some (Some a, r') /\
       MemoryAllocator.ring_inv 2 r' /\
       MemoryAllocator.ring_contents 2 r' = rest /\
       MemoryAllocator.mAllocator r' = mkBump 8%positive 4 []).
Proof.
  apply (ring_alloc_queue 2 ring_holding_3).
  unfold MemoryAllocator.ring_inv, MemoryAllocator.ring_ok. vm_compute.
  repeat split; congruence.
Defined.

(** ** The allocators: round trips and failure *)

Section AllocatorRoundTrips.
Context {sys : Type} `{SystemAllocator sys}.
Import MemoryAllocator.

(** X3: in the [S = 1] specialisation a block given to [free] is the
    block the next [alloc] returns, the slot is empty afterwards, and
    the block that was in the slot before, if any, has gone to the
    system allocator. *)
Theorem one_slot_free_alloc (a : addr) (m : Single sys) :
  alloc1 (free1 (Some a) m)
  = (Some a,
     mkSingle None
       (match mPtr m with
        | Some b => operator_delete (Some b) (mAllocator1 m)
        | None => mAllocator1 m
        end)).
Proof.
  unfold free1, alloc1, free0, Atomic.exchange. destruct m as [[b|] s]; done.
Qed.

(** X4: whatever the cache size and the state, [alloc] returns null
    only when the system allocator, asked in the state the allocator
    holds, returns null. *)
Theorem alloc_null_only_from_system (S : Z) (m m' : t sys) :
  alloc S m = Some (None, m') ->
  (operator_new (system m)).1 = None.
Proof.
  destruct m as [s|s|r]; simpl.
  - unfold alloc0. destruct (operator_new s) as [p s']. by intros [= -> _].
  - unfold alloc1, alloc0, Atomic.exchange. destruct (mPtr s) as [b|]; [done|].
    destruct (operator_new (mAllocator1 s)) as [p s']. by intros [= -> _].
  - unfold allocS, allocS_fuel. simpl.
    destruct (mHead r =? mTail r); simpl.
    + unfold alloc0. destruct (operator_new (mAllocator r)) as [p s'].
      by intros [= -> _].
    + destruct (next_index S (mHead r)); simpl; [|done].
      destruct (mQueueBuffer r !! _) as [[b|]|]; simpl; [| |done];
        rewrite compare_exchange_same; simpl; [done|].
      unfold alloc0. destruct (operator_new (mAllocator r)) as [p s'].
      by intros [= -> _].
Qed.

End AllocatorRoundTrips.

Lemma alloc_null_only_from_system_witness :
  (operator_new (MemoryAllocator.system one_slot_exhausted)).1 = None.
Proof.
  apply (alloc_null_only_from_system 1 one_slot_exhausted one_slot_exhausted).
  reflexivity.
Defined.

(** ** The object allocator: [free] *)

Section ObjectFree.
Context {sys : Type} `{SystemAllocator sys} {T Args E : Type}.
Variable S : Z.
Variable construct : Args -> E + T.
Variable destroy : T -> option E.
Variable nothrow_destructible : bool.
Variable is_fundamental : bool.

Local Abbreviation ofree :=
  (ObjectAllocator.free S destroy nothrow_destructible is_fundamental).

(** X5: [ObjectAllocator::free] gives the block of a live object to
    the memory allocator whether the destructor returns or throws: in
    both cases the object is gone and the block is in the cache or
    with the system allocator; a throwing destructor makes [free]
    throw the same exception.  [free(nullptr)] changes nothing, for
    every cache size. *)
Theorem object_free_returns_block
    (a : addr) (x : T) (o : ObjectAllocator.t sys T) (m' : MemoryAllocator.t sys) :
  ObjectAllocator.objects o !! a = Some x ->
  MemoryAllocator.free S (Some a) (ObjectAllocator.mMemoryAllocator o) = Some m' ->
  is_fundamental = false ->
  nothrow_destructible = false ->
  ofree None o = Normal tt o /\
  ofree (Some a) o
    = (let o' := ObjectAllocator.mk m' (delete a (ObjectAllocator.objects o)) in
       match destroy x with
       | None => Normal tt o'
       | Some e => Thrown e o'
       end) /\
  (Some a ∈ MemoryAllocator.cached m' \/
   MemoryAllocator.system m'
     = operator_delete (Some a)
         (MemoryAllocator.system (ObjectAllocator.mMemoryAllocator o))).
Proof.
  intros Hx Hf Hfund Hnt. split; [done|]. split.
  - unfold ObjectAllocator.free, ObjectAllocator.release.
    rewrite Hfund, Hx, Hf, Hnt. simpl. by destruct (destroy x).
  - by eapply free_keeps_or_releases.
Qed.

(** X6: an object that [alloc] has constructed and that [free] then
    destroys without an exception leaves the set of live objects as
    it was before the [alloc], provided the block was not in use. *)
Theorem object_alloc_free_round_trip
    (nothrow : bool) (args : Args) (a : addr) (v : T)
    (o o1 : ObjectAllocator.t sys T) (m2 : MemoryAllocator.t sys) :
  ObjectAllocator.alloc S construct nothrow args o = Normal (Some a) o1 ->
  construct args = inr v ->
  destroy v = None ->
  ObjectAllocator.objects o !! a = None ->
  MemoryAllocator.free S (Some a) (ObjectAllocator.mMemoryAllocator o1) = Some m2 ->
  ObjectAllocator.objects o1 !! a = Some v /\
  ofree (Some a) o1 = Normal tt (ObjectAllocator.mk m2 (ObjectAllocator.objects o)).
Proof.
  intros Ha Hc Hd Hfree Hf. unfold ObjectAllocator.alloc in Ha.
  destruct (MemoryAllocator.alloc S _) as [[[b|] m1]|]; try done.
  rewrite Hc in Ha. injection Ha as -> <-. simpl in *.
  split; [apply lookup_insert_eq|].
  unfold ObjectAllocator.free, ObjectAllocator.release. simpl.
  rewrite Hf. simpl. rewrite lookup_insert_eq, Hd.
  rewrite delete_insert_eq, delete_id by done.
  by destruct is_fundamental.
Qed.

End ObjectFree.

Lemma object_free_returns_block_witness :
  ObjectAllocator.free 1 grumpy false false None objects_holding_minus_4
    = Normal tt objects_holding_minus_4 /\
  ObjectAllocator.free 1 grumpy false false (Some 1%positive) objects_holding_minus_4
    = (let o' :=
         ObjectAllocator.mk
           (MemoryAllocator.OneSlot
              (MemoryAllocator.mkSingle (Some 1%positive) (mkBump 2%positive 3 [])))
           (delete 1%positive (ObjectAllocator.objects objects_holding_minus_4)) in
       match grumpy (-4) with
       | None => Normal tt o'
       | Some e => Thrown e o'
       end) /\
  (Some 1%positive ∈ MemoryAllocator.cached
     (MemoryAllocator.OneSlot
        (MemoryAllocator.mkSingle (Some 1%positive) (mkBump 2%positive 3 []))) \/
   MemoryAllocator.system
     (MemoryAllocator.OneSlot
        (MemoryAllocator.mkSingle (Some 1%positive) (mkBump 2%positive 3 [])))
   = operator_delete (Some 1%positive)
       (MemoryAllocator.system
          (ObjectAllocator.mMemoryAllocator objects_holding_minus_4))).
Proof.
  apply (object_free_returns_block 1 grumpy false false 1%positive (-4)
           objects_holding_minus_4); reflexivity.
Defined.

Lemma object_alloc_free_round_trip_witness :
  ObjectAllocator.objects
    (ObjectAllocator.mk
       (MemoryAllocator.OneSlot (MemoryAllocator.mkSingle None (mkBump 2%positive 3 [])))
       (<[1%positive := 6]> ∅)) !! 1%positive = Some 6 /\
  ObjectAllocator.free 1 grumpy false false (Some 1%positive)
    (ObjectAllocator.mk
       (MemoryAllocator.OneSlot (MemoryAllocator.mkSingle None (mkBump 2%positive 3 [])))
       (<[1%positive := 6]> ∅))
  = Normal tt
      (ObjectAllocator.mk
         (MemoryAllocator.OneSlot
            (MemoryAllocator.mkSingle (Some 1%positive) (mkBump 2%positive 3 [])))
         (ObjectAllocator.objects objects_on_one_slot)).
Proof.
  apply (object_alloc_free_round_trip 1 picky grumpy false false false 6
           1%positive 6 objects_on_one_slot); reflexivity.
Defined.

(** ** The chunk list: [pop] *)

Section ChunkListPop.
Context {sys : Type} `{SystemAllocator sys} {T : Type}.
Variables N S : Z.
Import ChunkList.

Local Abbreviation list_t := (ChunkList.t sys T).
Local Abbreviation pop := (ChunkList.pop N S).

Lemma pop_within (l : list_t) :
  wrap 32 (mBeginPos l + 1) <> N ->
  pop l = Some (set_begin (mBeginChunk l) (wrap 32 (mBeginPos l + 1)) l).
Proof. intros Hne. unfold ChunkList.pop. simpl. by rewrite decide_False. Qed.

(** [pop] out of a chunk, on a list whose links are in place. *)
Lemma pop_boundary_eq (l : list_t) (o b : addr) (ko kb : Chunk T) m' :
  wrap 32 (mBeginPos l + 1) = N ->
  mBeginChunk l = Some o ->
  heap l !! o = Some ko -> next ko = Holds (Some b) ->
  heap l !! b = Some kb ->
  MemoryAllocator.free S (Some o) (mAllocator l) = Some m' ->
  pop l = Some (mk m' (delete o (<[b := set_prev None kb]> (heap l)))
                   (Some b) 0 (mBackChunk l) (mBackPos l)
                   (mEndChunk l) (mEndPos l)).
Proof.
  intros HN Ho Hko Hnx Hkb Hf. unfold ChunkList.pop. simpl.
  rewrite decide_True by done.
  unfold get_next. simpl. rewrite Ho. simpl. rewrite Hko. simpl.
  rewrite Hnx. simpl. unfold put_prev. simpl. rewrite Hkb. simpl.
  unfold chunk_free. simpl. rewrite Hf. simpl. done.
Qed.

(** [pop] out of a chunk, whenever it is defined. *)
Lemma pop_boundary (l l' : list_t) :
  wrap 32 (mBeginPos l + 1) = N ->
  pop l = Some l' ->
  exists o b kb,
    mBeginChunk l = Some o /\
    get_next (Some o) l = Some (Some b) /\
    heap l !! b = Some kb /\
    MemoryAllocator.free S (Some o) (mAllocator l) = Some (mAllocator l') /\
    l' = mk (mAllocator l') (delete o (<[b := set_prev None kb]> (heap l)))
            (Some b) 0 (mBackChunk l) (mBackPos l)
            (mEndChunk l) (mEndPos l).
Proof.
  intros HN Hp. unfold ChunkList.pop in Hp. simpl in Hp.
  rewrite decide_True in Hp by done.
  unfold get_next in *. simpl in *.
  destruct (mBeginChunk l) as [o|] eqn:Ho; simpl in *; [|done].
  destruct (heap l !! o) as [ko|] eqn:Hko; simpl in *; [|done].
  destruct (next ko) as [|nb] eqn:Hnb; simpl in *; [done|].
  unfold put_prev in Hp. simpl in Hp.
  destruct nb as [b|]; simpl in Hp; [|done].
  destruct (heap l !! b) as [kb|] eqn:Hkb; simpl in Hp; [|done].
  unfold chunk_free in Hp. simpl in Hp.
  destruct (MemoryAllocator.free S (Some o) (mAllocator l)) as [m'|] eqn:Hf;
    simpl in Hp; [|done].
  injection Hp as <-. exists o, b, kb. simpl. rewrite Hko. simpl.
  rewrite Hnb. done.
Qed.

(** X7: [pop] moves the begin position one slot on.  Exactly when
    the advance reaches [N] the begin chunk is left: the next chunk
    becomes the begin chunk at position 0 with its [prev] cleared, and
    the chunk left behind is given to the pool and is no longer part
    of the list.  The back and end cursors never move.  [pop] is
    defined inside a chunk, and out of a chunk when the next chunk is
    linked and alive and the pool accepts the block. *)
Theorem pop_cases (l l' : list_t) :
  (pop l = Some l' ->
   mBackChunk l' = mBackChunk l /\ mBackPos l' = mBackPos l /\
   mEndChunk l' = mEndChunk l /\ mEndPos l' = mEndPos l /\
   (wrap 32 (mBeginPos l + 1) <> N ->
    mBeginChunk l' = mBeginChunk l /\
    mBeginPos l' = wrap 32 (mBeginPos l + 1) /\
    mAllocator l' = mAllocator l /\ heap l' = heap l) /\
   (wrap 32 (mBeginPos l + 1) = N ->
    exists o b,
      mBeginChunk l = Some o /\
      get_next (Some o) l = Some (Some b) /\
      mBeginChunk l' = Some b /\ mBeginPos l' = 0 /\
      MemoryAllocator.free S (Some o) (mAllocator l) = Some (mAllocator l') /\
      heap l' !! o = None /\
      (o <> b -> get_prev (Some b) l' = Some None))) /\
  (wrap 32 (mBeginPos l + 1) <> N -> is_Some (pop l)) /\
  (forall o b ko kb m',
     wrap 32 (mBeginPos l + 1) = N ->
     mBeginChunk l = Some o ->
     heap l !! o = Some ko -> next ko = Holds (Some b) ->
     heap l !! b = Some kb ->
     MemoryAllocator.free S (Some o) (mAllocator l) = Some m' ->
     is_Some (pop l)).
Proof.
  split; [|split].
  - intros Hp.
    destruct (decide (wrap 32 (mBeginPos l + 1) = N)) as [HN|HN].
    + destruct (pop_boundary l l' HN Hp) as (o & b & kb & Ho & Hnx & Hkb & Hf & Hl').
      rewrite Hl'. simpl. split_and!; try done.
      intros _. exists o, b. split_and!; try done.
      * apply lookup_delete_eq.
      * intros Hob. unfold get_prev. simpl.
        rewrite lookup_delete_ne by done. rewrite lookup_insert_eq. done.
    + rewrite (pop_within l HN) in Hp. injection Hp as <-. simpl.
      split_and!; done.
  - intros HN. rewrite (pop_within l HN). eauto.
  - intros o b ko kb m' HN Ho Hko Hnx Hkb Hf.
    rewrite (pop_boundary_eq l o b ko kb m' HN Ho Hko Hnx Hkb Hf). eauto.
Qed.

End ChunkListPop.

Lemma pop_cases_witness :
  ChunkList.mBackChunk tiny_list_popped = ChunkList.mBackChunk tiny_list_at_chunk_end /\
  ChunkList.mBackPos tiny_list_popped = ChunkList.mBackPos tiny_list_at_chunk_end /\
  ChunkList.mEndChunk tiny_list_popped = ChunkList.mEndChunk tiny_list_at_chunk_end /\
  ChunkList.mEndPos tiny_list_popped = ChunkList.mEndPos tiny_list_at_chunk_end /\
  (wrap 32 (ChunkList.mBeginPos tiny_list_at_chunk_end + 1) <> 2 ->
   ChunkList.mBeginChunk tiny_list_popped
     = ChunkList.mBeginChunk tiny_list_at_chunk_end /\
   ChunkList.mBeginPos tiny_list_popped
     = wrap 32 (ChunkList.mBeginPos tiny_list_at_chunk_end + 1) /\
   ChunkList.mAllocator tiny_list_popped
     = ChunkList.mAllocator tiny_list_at_chunk_end /\
   ChunkList.heap tiny_list_popped = ChunkList.heap tiny_list_at_chunk_end) /\
  (wrap 32 (ChunkList.mBeginPos tiny_list_at_chunk_end + 1) = 2 ->
   exists o b,
     ChunkList.mBeginChunk tiny_list_at_chunk_end = Some o /\
     ChunkList.get_next (Some o) tiny_list_at_chunk_end = Some (Some b) /\
     ChunkList.mBeginChunk tiny_list_popped = Some b /\
     ChunkList.mBeginPos tiny_list_popped = 0 /\
     MemoryAllocator.free 1 (Some o) (ChunkList.mAllocator tiny_list_at_chunk_end)
       = Some (ChunkList.mAllocator tiny_list_popped) /\
     ChunkList.heap tiny_list_popped !! o = None /\
     (o <> b -> ChunkList.get_prev (Some b) tiny_list_popped = Some None)).
Proof.
  apply (proj1 (pop_cases 2 1 tiny_list_at_chunk_end tiny_list_popped)).
  vm_compute. reflexivity.
Defined.

(** ** The pipe: who touches what *)

Section PipeRoles.
Context {sys : Type} `{SystemAllocator sys} {T Args E : Type}.
Variables N S : Z.
Variable construct : Args -> E + T.
Variable is_fundamental : bool.
Import Pipe.

Local Abbreviation pipe := (Pipe.t sys T).
Local Abbreviation step := (Pipe.step N S construct is_fundamental).
Local Abbreviation run := (Pipe.run N S construct is_fundamental).

Lemma push_begin (l l' : ChunkList.t sys T) :
  ChunkList.push N S l = Some l' ->
  ChunkList.mBeginChunk l' = ChunkList.mBeginChunk l /\
  ChunkList.mBeginPos l' = ChunkList.mBeginPos l.
Proof.
  intros Hp.
  destruct (decide (wrap 32 (ChunkList.mEndPos l + 1) = N)) as [HN|HN].
  - destruct (push_boundary N S l l' HN Hp)
      as (e & sc & m' & _ & _ & _ & _ & _ & _ & _ & Hc & Hi & _). done.
  - rewrite (push_within N S l HN) in Hp. by injection Hp as <-.
Qed.

Lemma dtor_cursors (b : slot) (l l' : ChunkList.t sys T) :
  Pipe.dtor is_fundamental b l = Some l' ->
  ChunkList.mAllocator l' = ChunkList.mAllocator l /\
  ChunkList.mBeginChunk l' = ChunkList.mBeginChunk l /\
  ChunkList.mBeginPos l' = ChunkList.mBeginPos l /\
  ChunkList.mBackChunk l' = ChunkList.mBackChunk l /\
  ChunkList.mBackPos l' = ChunkList.mBackPos l /\
  ChunkList.mEndChunk l' = ChunkList.mEndChunk l /\
  ChunkList.mEndPos l' = ChunkList.mEndPos l.
Proof.
  unfold Pipe.dtor. destruct is_fundamental.
  - by intros [= <-].
  - apply store_cursors.
Qed.

Lemma pop_back_end (l l' : ChunkList.t sys T) :
  ChunkList.pop N S l = Some l' ->
  ChunkList.mBackChunk l' = ChunkList.mBackChunk l /\
  ChunkList.mBackPos l' = ChunkList.mBackPos l /\
  ChunkList.mEndChunk l' = ChunkList.mEndChunk l /\
  ChunkList.mEndPos l' = ChunkList.mEndPos l.
Proof.
  intros Hp.
  destruct (decide (wrap 32 (ChunkList.mBeginPos l + 1) = N)) as [HN|HN].
  - destruct (pop_boundary N S l l' HN Hp) as (o & b & kb & _ & _ & _ & _ & ->).
    done.
  - rewrite (pop_within N S l HN) in Hp. by injection Hp as <-.
Qed.

Lemma write_begin (i : bool) (args : Args) (p p' : pipe) (u : unit) :
  Pipe.write N S construct i args p = Normal u p' ->
  ChunkList.mBeginChunk (mChunkList p') = ChunkList.mBeginChunk (mChunkList p) /\
  ChunkList.mBeginPos (mChunkList p') = ChunkList.mBeginPos (mChunkList p).
Proof.
  unfold Pipe.write.
  destruct (ChunkList.back_addr (mChunkList p)) as [b|]; [|done].
  destruct (construct args) as [e|v]; [done|].
  unfold Pipe.ctor.
  destruct (ChunkList.store b (Holds v) (mChunkList p)) as [l1|] eqn:Hs;
    simpl; [|done].
  destruct (ChunkList.push N S l1) as [l2|] eqn:Hp; simpl; [|done].
  destruct (ChunkList.back_addr l2) as [b'|]; simpl; [|done].
  destruct (store_cursors _ _ _ _ Hs) as (_ & Hc1 & Hi1 & _).
  destruct (push_begin _ _ Hp) as (Hc2 & Hi2).
  destruct i; intros [= _ <-]; simpl; by rewrite Hc2, Hi2, Hc1, Hi1.
Qed.

Lemma unwrite_begin (p p' : pipe) (r : option T) :
  Pipe.unwrite N S is_fundamental p = Some (r, p') ->
  ChunkList.mBeginChunk (mChunkList p') = ChunkList.mBeginChunk (mChunkList p) /\
  ChunkList.mBeginPos (mChunkList p') = ChunkList.mBeginPos (mChunkList p).
Proof.
  unfold Pipe.unwrite.
  destruct (ChunkList.back_addr (mChunkList p)) as [b|]; simpl; [|done].
  destruct (decide _); [by intros [= _ <-]|].
  destruct (ChunkList.unpush N S (mChunkList p)) as [l1|] eqn:Hu; simpl; [|done].
  destruct (ChunkList.back_addr l1) as [b'|]; simpl; [|done].
  destruct (ChunkList.load b' l1) as [v|]; simpl; [|done].
  destruct (Pipe.dtor is_fundamental b' l1) as [l2|] eqn:Hd; simpl; [|done].
  intros [= _ <-]. simpl.
  destruct (unpush_back N S _ _ Hu) as (_ & _ & Hc1 & Hi1).
  destruct (dtor_cursors _ _ _ Hd) as (_ & Hc2 & Hi2 & _).
  by rewrite Hc2, Hi2, Hc1, Hi1.
Qed.

Lemma read_back_end (p p' : pipe) (r : option T) :
  Pipe.read N S is_fundamental p = Some (r, p') ->
  ChunkList.mBackChunk (mChunkList p') = ChunkList.mBackChunk (mChunkList p) /\
  ChunkList.mBackPos (mChunkList p') = ChunkList.mBackPos (mChunkList p) /\
  ChunkList.mEndChunk (mChunkList p') = ChunkList.mEndChunk (mChunkList p) /\
  ChunkList.mEndPos (mChunkList p') = ChunkList.mEndPos (mChunkList p).
Proof.
  unfold Pipe.read.
  destruct (Pipe.check_read p) as [[ok p1]|] eqn:Hc; simpl; [|done].
  destruct (check_read_cursors _ _ _ Hc) as (_ & _ & Hl & _).
  destruct ok.
  - destruct (ChunkList.front_addr (mChunkList p1)) as [f|]; simpl; [|done].
    destruct (ChunkList.load f (mChunkList p1)) as [v|]; simpl; [|done].
    destruct (Pipe.dtor is_fundamental f (mChunkList p1)) as [l1|] eqn:Hd;
      simpl; [|done].
    destruct (ChunkList.pop N S l1) as [l2|] eqn:Hp; simpl; [|done].
    intros [= _ <-]. simpl.
    destruct (dtor_cursors _ _ _ Hd) as (_ & _ & _ & H1 & H2 & H3 & H4).
    destruct (pop_back_end _ _ Hp) as (G1 & G2 & G3 & G4).
    rewrite <- Hl. by rewrite G1, G2, G3, G4, H1, H2, H3, H4.
  - intros [= _ <-]. by rewrite Hl.
Qed.

(** X8: the two threads write disjoint parts of the pipe.  A call of
    the producer ([write], [unwrite], [flush]) changes neither
    [mReadEnd] nor the begin cursor of the chunk list; a call of the
    consumer ([check_read], [read]) changes neither [mLastFlushEnd]
    nor [mFlushEnd] nor the back and end cursors.  [mCommitEnd] is
    changed by [flush], [check_read] and [read] only. *)
Theorem role_separation
    (c : Pipe.call Args) (p p' : pipe) (e : Pipe.event T E) :
  step c p = Some (e, p') ->
  (producer_call c = true ->
   mReadEnd p' = mReadEnd p /\
   ChunkList.mBeginChunk (mChunkList p') = ChunkList.mBeginChunk (mChunkList p) /\
   ChunkList.mBeginPos (mChunkList p') = ChunkList.mBeginPos (mChunkList p)) /\
  (producer_call c = false ->
   mLastFlushEnd p' = mLastFlushEnd p /\ mFlushEnd p' = mFlushEnd p /\
   ChunkList.mBackChunk (mChunkList p') = ChunkList.mBackChunk (mChunkList p) /\
   ChunkList.mBackPos (mChunkList p') = ChunkList.mBackPos (mChunkList p) /\
   ChunkList.mEndChunk (mChunkList p') = ChunkList.mEndChunk (mChunkList p) /\
   ChunkList.mEndPos (mChunkList p') = ChunkList.mEndPos (mChunkList p)) /\
  (mCommitEnd p' <> mCommitEnd p ->
   c = Flush \/ c = CheckRead \/ c = Read).
Proof.
  destruct c as [args i| | | |]; simpl.
  - destruct (Pipe.write N S construct i args p) as [u p1|e1 p1|] eqn:Hw; [| |done].
    + intros [= _ <-].
      destruct (write_cursors _ _ _ _ _ _ _ _ Hw) as (Hc & _ & Hr & _).
      destruct (write_begin _ _ _ _ _ Hw) as (Hb1 & Hb2).
      split_and!; try done; intros; congruence.
    + intros [= _ <-]. rewrite (write_thrown _ _ _ _ _ _ _ _ Hw).
      split_and!; try done; intros; congruence.
  - destruct (Pipe.unwrite N S is_fundamental p) as [[r p1]|] eqn:Hu; simpl; [|done].
    intros [= _ <-].
    destruct (unwrite_cursors _ _ _ _ _ _ Hu) as (Hc & _ & Hr & _).
    destruct (unwrite_begin _ _ _ Hu) as (Hb1 & Hb2).
    split_and!; try done; intros; congruence.
  - destruct (flush p) as [r p1] eqn:Hf. intros [= _ <-].
    unfold flush in Hf.
    destruct (decide (mLastFlushEnd p = mFlushEnd p)).
    + injection Hf as _ <-. split_and!; auto; done.
    + unfold Atomic.compare_exchange_strong in Hf.
      destruct (decide (mCommitEnd p = mLastFlushEnd p));
        injection Hf as _ <-; simpl; split_and!; auto; done.
  - destruct (Pipe.check_read p) as [[r p1]|] eqn:Hc; simpl; [|done].
    intros [= _ <-].
    destruct (check_read_cursors _ _ _ Hc) as (H1 & H2 & H3 & _).
    rewrite H3. split_and!; auto; done.
  - destruct (Pipe.read N S is_fundamental p) as [[r p1]|] eqn:Hr; simpl; [|done].
    intros [= _ <-].
    destruct (read_cursors _ _ _ _ _ _ Hr) as (H1 & H2 & _).
    destruct (read_back_end _ _ _ Hr) as (G1 & G2 & G3 & G4).
    split_and!; auto; done.
Qed.

End PipeRoles.

Lemma role_separation_witness :
  (producer_call (Pipe.Write 11 true) = true ->
   Pipe.mReadEnd tiny_pipe_pending = Pipe.mReadEnd tiny_pipe /\
   ChunkList.mBeginChunk (Pipe.mChunkList tiny_pipe_pending)
     = ChunkList.mBeginChunk (Pipe.mChunkList tiny_pipe) /\
   ChunkList.mBeginPos (Pipe.mChunkList tiny_pipe_pending)
     = ChunkList.mBeginPos (Pipe.mChunkList tiny_pipe)) /\
  (producer_call (Pipe.Write 11 true) = false ->
   Pipe.mLastFlushEnd tiny_pipe_pending = Pipe.mLastFlushEnd tiny_pipe /\
   Pipe.mFlushEnd tiny_pipe_pending = Pipe.mFlushEnd tiny_pipe /\
   ChunkList.mBackChunk (Pipe.mChunkList tiny_pipe_pending)
     = ChunkList.mBackChunk (Pipe.mChunkList tiny_pipe) /\
   ChunkList.mBackPos (Pipe.mChunkList tiny_pipe_pending)
     = ChunkList.mBackPos (Pipe.mChunkList tiny_pipe) /\
   ChunkList.mEndChunk (Pipe.mChunkList tiny_pipe_pending)
     = ChunkList.mEndChunk (Pipe.mChunkList tiny_pipe) /\
   ChunkList.mEndPos (Pipe.mChunkList tiny_pipe_pending)
     = ChunkList.mEndPos (Pipe.mChunkList tiny_pipe)) /\
  (Pipe.mCommitEnd tiny_pipe_pending <> Pipe.mCommitEnd tiny_pipe ->
   Pipe.Write 11 true = Pipe.Flush \/ Pipe.Write 11 true = Pipe.CheckRead \/
   Pipe.Write 11 true = Pipe.Read).
Proof.
  apply (role_separation 2 1 (fun v : Z => inr v : Empty_set + Z) true
           (Pipe.Write 11 true) tiny_pipe tiny_pipe_pending Pipe.Wrote).
  vm_compute. reflexivity.
Defined.

(** ** The pipe: publication *)

Section PipePublication.
Context {sys : Type} `{SystemAllocator sys} {T Args E : Type}.
Variables N S : Z.
Variable construct : Args -> E + T.
Variable is_fundamental : bool.
Import Pipe.

Local Abbreviation pipe := (Pipe.t sys T).
Local Abbreviation step := (Pipe.step N S construct is_fundamental).
Local Abbreviation run := (Pipe.run N S construct is_fundamental).

(** X9: after any [flush] the producer's two cursors agree, so a
    [flush] repeated at once returns true and changes nothing; and a
    [flush] that had something to publish leaves [mCommitEnd] at
    [mFlushEnd], whether the consumer was asleep or not. *)
Theorem flush_settles (p : pipe) :
  mLastFlushEnd (flush p).2 = mFlushEnd (flush p).2 /\
  flush (flush p).2 = (true, (flush p).2) /\
  (mLastFlushEnd p <> mFlushEnd p ->
   mCommitEnd (flush p).2 = mFlushEnd p).
Proof.
  assert (Hagree : mLastFlushEnd (flush p).2 = mFlushEnd (flush p).2).
  { unfold flush. destruct (decide (mLastFlushEnd p = mFlushEnd p)); [done|].
    unfold Atomic.compare_exchange_strong.
    destruct (decide (mCommitEnd p = mLastFlushEnd p)); done. }
  split; [done|]. split.
  - unfold flush at 1. by rewrite decide_True.
  - intros Hne. unfold flush. rewrite decide_False by done.
    unfold Atomic.compare_exchange_strong.
    destruct (decide (mCommitEnd p = mLastFlushEnd p)); done.
Qed.

Lemma tentative_step (c : Pipe.call Args) (p p' : pipe) (e : Pipe.event T E) :
  tentative_call c = true ->
  step c p = Some (e, p') ->
  mFlushEnd p' = mFlushEnd p /\ mLastFlushEnd p' = mLastFlushEnd p /\
  mCommitEnd p' = mCommitEnd p /\ mReadEnd p' = mReadEnd p /\
  ChunkList.front_addr (mChunkList p') = ChunkList.front_addr (mChunkList p).
Proof.
  intros Ht Hs.
  assert (Hprod : producer_call c = true) by (by destruct c as [? []| | | |]).
  destruct (role_separation N S construct is_fundamental c p p' e Hs)
    as (Hp & _ & Hc).
  destruct (Hp Hprod) as (Hr & Hb1 & Hb2).
  assert (Hfront : ChunkList.front_addr (mChunkList p')
                   = ChunkList.front_addr (mChunkList p)).
  { unfold ChunkList.front_addr. by rewrite Hb1, Hb2. }
  destruct c as [args [|]| | | |]; try done; simpl in Hs.
  - destruct (Pipe.write N S construct true args p) as [u p1|e1 p1|] eqn:Hw;
      [| |done].
    + injection Hs as _ <-. unfold Pipe.write in Hw.
      destruct (ChunkList.back_addr (mChunkList p)); [|done].
      destruct (construct args); [done|].
      destruct (_ ≫= _) as [p2|] eqn:Hb; [|done]. injection Hw as _ Hp2. subst p2.
      destruct (Pipe.ctor _ _ _) as [l1|]; simpl in Hb; [|done].
      destruct (ChunkList.push N S l1) as [l2|]; simpl in Hb; [|done].
      destruct (ChunkList.back_addr l2); simpl in Hb; [|done].
      injection Hb as Hb. subst p1. simpl in *. split_and!; done.
    + injection Hs as _ <-.
      rewrite (write_thrown _ _ _ _ _ _ _ _ Hw). done.
  - destruct (Pipe.unwrite N S is_fundamental p) as [[r p1]|] eqn:Hu;
      simpl in Hs; [|done].
    injection Hs as _ <-.
    destruct (unwrite_cursors _ _ _ _ _ _ Hu) as (H1 & H2 & H3 & H4).
    split_and!; done.
Qed.

(** X10: tentative writes are not published.  After any sequence of
    [write(_, true)] and [unwrite] calls the four cursors of the
    protocol and the front slot are where they were, so [check_read]
    gives the consumer the answer it would have given before, and a
    [flush] of a producer with nothing to publish before still
    returns true without changing anything. *)
Theorem tentative_writes_unpublished
    (cs : list (Pipe.call Args)) :
  forall (p p' : pipe) (es : list (Pipe.event T E)),
    forallb tentative_call cs = true ->
    run cs p = Some (es, p') ->
    mFlushEnd p' = mFlushEnd p /\ mLastFlushEnd p' = mLastFlushEnd p /\
    mCommitEnd p' = mCommitEnd p /\ mReadEnd p' = mReadEnd p /\
    fst <$> check_read p' = fst <$> check_read p /\
    (mLastFlushEnd p = mFlushEnd p -> flush p' = (true, p')).
Proof.
  assert (Hcur : forall (p p' : pipe) (es : list (Pipe.event T E)),
    forallb tentative_call cs = true ->
    run cs p = Some (es, p') ->
    mFlushEnd p' = mFlushEnd p /\ mLastFlushEnd p' = mLastFlushEnd p /\
    mCommitEnd p' = mCommitEnd p /\ mReadEnd p' = mReadEnd p /\
    ChunkList.front_addr (mChunkList p') = ChunkList.front_addr (mChunkList p)).
  { induction cs as [|c cs IH]; intros p p' es Hall Hrun.
    - injection Hrun as _ <-. done.
    - simpl in Hall, Hrun. apply andb_prop in Hall as [Hc Hall].
      destruct (step c p) as [[e1 p1]|] eqn:Hs; simpl in Hrun; [|done].
      destruct (run cs p1) as [[es1 p2]|] eqn:Hr; simpl in Hrun; [|done].
      injection Hrun as _ <-.
      destruct (tentative_step c p p1 e1 Hc Hs) as (H1 & H2 & H3 & H4 & H5).
      destruct (IH p1 p2 es1 Hall Hr) as (G1 & G2 & G3 & G4 & G5).
      rewrite G1, G2, G3, G4, G5. done. }
  intros p p' es Hall Hrun.
  destruct (Hcur p p' es Hall Hrun) as (H1 & H2 & H3 & H4 & H5).
  split_and!; try done.
  - unfold check_read. rewrite H5.
    destruct (ChunkList.front_addr (mChunkList p)) as [f|]; simpl; [|done].
    rewrite H3, H4.
    destruct (decide _); [done|].
    unfold Atomic.compare_exchange_strong.
    destruct (decide (mCommitEnd p = mReadEnd p)); done.
  - intros Heq. unfold flush. rewrite decide_True; [done|]. congruence.
Qed.

Lemma push_back (l l' : ChunkList.t sys T) :
  ChunkList.push N S l = Some l' ->
  ChunkList.mBackChunk l' = ChunkList.mEndChunk l /\
  ChunkList.mBackPos l' = ChunkList.mEndPos l.
Proof.
  intros Hp.
  destruct (decide (wrap 32 (ChunkList.mEndPos l + 1) = N)) as [HN|HN].
  - destruct (push_boundary N S l l' HN Hp)
      as (e & sc & m' & He & _ & _ & Hc & Hi & _). by rewrite He.
  - rewrite (push_within N S l HN) in Hp. by injection Hp as <-.
Qed.

(** A default-constructed allocator has nothing cached: its first
    [alloc] returns what the system allocator returns. *)
Lemma alloc_init (a : sys) :
  exists m',
    MemoryAllocator.alloc S (MemoryAllocator.init S a)
    = Some ((operator_new a).1, m').
Proof.
  unfold MemoryAllocator.init.
  destruct (S =? 0); [|destruct (S =? 1)]; simpl.
  - unfold MemoryAllocator.alloc0. destruct (operator_new a). eauto.
  - unfold MemoryAllocator.alloc1, MemoryAllocator.alloc0. simpl.
    destruct (operator_new a). eauto.
  - unfold MemoryAllocator.allocS, MemoryAllocator.allocS_fuel,
      MemoryAllocator.alloc0. simpl.
    destruct (operator_new a). eauto.
Qed.

(** X11: a freshly constructed pipe is empty: its four cursors are
    the address of the back slot, which is also the front slot, and
    the first [read] returns false, marks the consumer asleep and
    changes nothing else.  When the system allocator cannot deliver
    the first chunk the constructor runs into undefined behaviour. *)
Theorem fresh_pipe_empty (a : sys) :
  (forall p : pipe,
     Pipe.create N S a = Some p ->
     exists b,
       ChunkList.back_addr (mChunkList p) = Some b /\
       ChunkList.front_addr (mChunkList p) = Some b /\
       mLastFlushEnd p = Some b /\ mReadEnd p = Some b /\
       mFlushEnd p = Some b /\ mCommitEnd p = Some b /\
       Pipe.read N S is_fundamental p = Some (None, set_mCommitEnd None p)) /\
  ((operator_new a).1 = None -> Pipe.create (T:=T) N S a = None).
Proof.
  split.
  - intros p Hc. unfold Pipe.create in Hc.
    destruct (ChunkList.create N S a) as [l0|] eqn:Hl0; simpl in Hc; [|done].
    destruct (ChunkList.push N S l0) as [l|] eqn:Hp; simpl in Hc; [|done].
    destruct (ChunkList.back_addr l) as [b|] eqn:Hb; simpl in Hc; [|done].
    injection Hc as <-. exists b. simpl.
    assert (Hfront : ChunkList.front_addr l = Some b).
    { unfold ChunkList.create in Hl0.
      destruct (ChunkList.chunk_alloc N S _) as [[pchunk l00]|] eqn:Ha;
        simpl in Hl0; [|done].
      injection Hl0 as <-.
      destruct (push_begin N S _ _ Hp) as (Hc1 & Hi1).
      destruct (push_back _ _ Hp) as (Hc2 & Hi2).
      simpl in Hc1, Hi1, Hc2, Hi2.
      unfold ChunkList.front_addr, ChunkList.back_addr in *.
      rewrite Hc1, Hi1. by rewrite Hc2, Hi2 in Hb. }
    split_and!; try done.
    unfold Pipe.read, Pipe.check_read. simpl. rewrite Hfront. simpl.
    rewrite decide_False by (intros [Hne _]; done).
    by rewrite compare_exchange_same.
  - intros Hnull. unfold Pipe.create, ChunkList.create, ChunkList.chunk_alloc.
    simpl. destruct (alloc_init a) as [m' ->]. rewrite Hnull. simpl.
    destruct (decide (wrap 32 (0 + 1) = N)) as [HN|HN].
    + destruct (ChunkList.push N S _) as [l|] eqn:Hp; [|done]. exfalso.
      apply push_boundary in Hp as (e & sc & m2 & He & _); [done | exact HN].
    + rewrite push_within by exact HN. done.
Qed.

End PipePublication.

Lemma flush_settles_witness :
  Pipe.mLastFlushEnd (Pipe.flush tiny_pipe).2 = Pipe.mFlushEnd (Pipe.flush tiny_pipe).2 /\
  Pipe.flush (Pipe.flush tiny_pipe).2 = (true, (Pipe.flush tiny_pipe).2) /\
  (Pipe.mLastFlushEnd tiny_pipe <> Pipe.mFlushEnd tiny_pipe ->
   Pipe.mCommitEnd (Pipe.flush tiny_pipe).2 = Pipe.mFlushEnd tiny_pipe).
Proof. apply (flush_settles tiny_pipe). Defined.

Lemma tentative_writes_unpublished_witness :
  Pipe.mFlushEnd tiny_pipe_retracted = Pipe.mFlushEnd tiny_pipe /\
  Pipe.mLastFlushEnd tiny_pipe_retracted = Pipe.mLastFlushEnd tiny_pipe /\
  Pipe.mCommitEnd tiny_pipe_retracted = Pipe.mCommitEnd tiny_pipe /\
  Pipe.mReadEnd tiny_pipe_retracted = Pipe.mReadEnd tiny_pipe /\
  fst <$> Pipe.check_read tiny_pipe_retracted = fst <$> Pipe.check_read tiny_pipe /\
  (Pipe.mLastFlushEnd tiny_pipe = Pipe.mFlushEnd tiny_pipe ->
   Pipe.flush tiny_pipe_retracted = (true, tiny_pipe_retracted)).
Proof.
  apply (tentative_writes_unpublished 2 1 (fun v : Z => inr v : Empty_set + Z) true
           [Pipe.Write 11 true; Pipe.Unwrite] tiny_pipe tiny_pipe_retracted
           [Pipe.Wrote; Pipe.Unwrote (Some 11)]).
  - reflexivity.
  - vm_compute. reflexivity.
Defined.

Lemma fresh_pipe_empty_witness :
  exists b,
    ChunkList.back_addr (Pipe.mChunkList fresh_pipe) = Some b /\
    ChunkList.front_addr (Pipe.mChunkList fresh_pipe) = Some b /\
    Pipe.mLastFlushEnd fresh_pipe = Some b /\ Pipe.mReadEnd fresh_pipe = Some b /\
    Pipe.mFlushEnd fresh_pipe = Some b /\ Pipe.mCommitEnd fresh_pipe = Some b /\
    Pipe.read Demo.N Demo.S true fresh_pipe
      = Some (None, Pipe.set_mCommitEnd None fresh_pipe).
Proof.
  apply (proj1 (fresh_pipe_empty Demo.N Demo.S true (Demo.system 64)) fresh_pipe).
  vm_compute. reflexivity.
Defined.

(** ** The pool of any cache size on the bump allocator *)

Section PoolOnBump.
Import MemoryAllocator.

Local Abbreviation alloc_t := (MemoryAllocator.t Bump).




End PoolOnBump.

(** ** The pipe implements the queue *)

Section SlotArithmetic.
Variable N : Z.
Hypothesis HN : 0 < N.






Lemma div_nonneg (g : Z) : 0 <= g -> 0 <= g / N.
Proof. intros Hg. apply Z.div_pos; lia. Qed.

Lemma div_small_iff (g : Z) : 0 <= g -> (g / N = 0 <-> g < N).
Proof.
  intros Hg. split.
  - intros Hz. pose proof (Z.div_mod g N ltac:(lia)) as Hdm.
    pose proof (Z.mod_pos_bound g N HN). rewrite Hz in Hdm. lia.
  - intros Hlt. apply Z.div_small. lia.
Qed.



Lemma slot_at_some (cs : list addr) (g : Z) :
  0 <= g -> g / N < Z.of_nat (length cs) -> is_Some (slot_at N cs g).
Proof.
  intros Hg Hlt. unfold slot_at.
  destruct (cs !! Z.to_nat (g / N)) as [c|] eqn:Hc; simpl; [eauto|].
  apply lookup_ge_None in Hc. pose proof (div_nonneg g Hg). lia.
Qed.



End SlotArithmetic.

(** *** The chunk list operations on the representation *)

Section ListSimulation.
Context {T : Type}.
Variables N S : Z.
Hypothesis HN : 1 <= N <= UINT32_MAX.

Local Abbreviation clist := (ChunkList.t Bump T).




















End ListSimulation.

(** *** The pipe operations on the representation *)

Section PipeSimulation.
Context {T E : Type}.
Variables N S : Z.
Variable is_fundamental : bool.
Hypothesis HN : 1 <= N <= UINT32_MAX.

Local Abbreviation cpipe := (Pipe.t Bump T).
Local Abbreviation construct := (fun v : T => @inr E T v).














End PipeSimulation.

(** ** The queue machine on a batch *)

Section QueueBatch.
Context {T E : Type}.

Local Abbreviation qrun := (Queue.run (T:=T) (E:=E)).







End QueueBatch.

(** ** The pipe is a first-in first-out queue *)

Section PipeIsQueue.
Context {T E : Type}.
Variables N S : Z.
Variable is_fundamental : bool.




End PipeIsQueue.




(** ** Allocation failure *)

Section AllocationFailure.
Context {sys : Type} `{SystemAllocator sys} {T Args E : Type}.
Variables N S : Z.
Variable construct : Args -> E + T.

Lemma push_alloc_failure (l : ChunkList.t sys T) (m' : MemoryAllocator.t sys) :
  wrap 32 (ChunkList.mEndPos l + 1) = N ->
  MemoryAllocator.alloc S (ChunkList.mAllocator l) = Some (None, m') ->
  ChunkList.push N S l = None.
Proof.
  intros Hend Hal. unfold ChunkList.push. simpl.
  rewrite decide_False by (intros Hne; by apply Hne).
  unfold ChunkList.chunk_alloc. simpl. rewrite Hal. simpl.
  unfold ChunkList.put_next. simpl.
  destruct (ChunkList.mEndChunk l) as [e|]; simpl; [|done].
  destruct (ChunkList.heap l !! e) as [k|]; simpl; done.
Qed.

(** X15: a failed allocation is not handled by [write]: when the
    written slot is the last of its chunk and the allocator returns
    null for the chunk to be opened, [write] is undefined, although
    the constructor of the element did not throw. *)
Theorem write_alloc_failure_undefined (p : Pipe.t sys T)
    (m' : MemoryAllocator.t sys) (incomplete_ : bool) (args : Args) (v : T) :
  wrap 32 (ChunkList.mEndPos (Pipe.mChunkList p) + 1) = N ->
  MemoryAllocator.alloc S (ChunkList.mAllocator (Pipe.mChunkList p))
  = Some (None, m') ->
  construct args = inr v ->
  Pipe.write N S construct incomplete_ args p = Undefined.
Proof.
  intros Hend Hal Hc. unfold Pipe.write.
  destruct (ChunkList.back_addr (Pipe.mChunkList p)) as [b|]; [|done].
  rewrite Hc. unfold Pipe.ctor.
  destruct (ChunkList.store b (Holds v) (Pipe.mChunkList p)) as [l1|] eqn:Hst;
    [|done].
  simpl.
  destruct (store_cursors b (Holds v) _ l1 Hst)
    as (Hm & _ & _ & _ & _ & _ & Hep).
  rewrite (push_alloc_failure l1 m'); [done| |].
  - by rewrite Hep.
  - by rewrite Hm.
Qed.

End AllocationFailure.

Lemma write_alloc_failure_undefined_witness :
  Pipe.write 1 0 (fun v : Z => inr v : Empty_set + Z) false 5 starved_pipe
  = Undefined.
Proof.
  apply (write_alloc_failure_undefined 1 0 (fun v : Z => inr v : Empty_set + Z)
           starved_pipe (MemoryAllocator.Direct (mkBump 3%positive 0 []))
           false 5 5); reflexivity.
Defined.
